(** * Type hierarchy: protocol helper, feature lifecycle and service registry

  A shallow embedding of
  - class [TypeHierarchyFeature] and enum and namespace [TypeHierarchyType]
    ([typehierarchy-feature.ts], the second document of
    [packages/languages/src/browser/call-hierarchy/call-hierarchy-protocol.proposed.ts]),
  - the request and item shapes of [typehierarchy-protocol.ts],
  - class [TypeHierarchyService]
    ([packages/typehierarchy/src/browser/typehierarchy-service.ts]),
  together with the statements that relate them to the written
  specification.

  JavaScript objects are property lists; objects that are passed by
  reference and assigned to live in a store.  The service's [features]
  map is a [gmap].  Everything observable (events fired, the map being
  written, registrations, requests) is appended to a history, so that
  order can be stated.  [dispose] can re-enter itself through the
  listeners; the depth of the call stack is an explicit bound. *)

From Stdlib Require Import ZArith.
From stdpp Require Import gmap strings list fin_maps pretty.

Set Warnings "-register-all".

(** ** JavaScript values and completions *)

Module JS.

(** The values that flow through the modelled code.  Objects keep their
    own properties in insertion order, as a JavaScript object does for
    keys that are not array indices. *)
Inductive JsVal :=
| VUndefined
| VNull
| VBool (b : bool)
| VNum (n : Z)
| VStr (s : string)
| VArr (elems : list JsVal)
| VObj (props : list (string * JsVal)).

Definition Obj := list (string * JsVal).

Inductive JsError :=
| Error (message : string)
| TypeError (message : string)
| RangeError (message : string).

(** How a call completes: normally with a value, or abruptly with a
    thrown error (for an [async] method: a resolved or a rejected promise). *)
Inductive Completion (A : Type) :=
| Return (a : A)
| Throw (e : JsError).
Arguments Return {A} a.
Arguments Throw {A} e.

(** [!!v] *)
Definition truthy (v : JsVal) : bool :=
  match v with
  | VUndefined | VNull => false
  | VBool b => b
  | VNum n => negb (n =? 0)%Z
  | VStr s => negb (String.eqb s "")
  | VArr _ | VObj _ => true
  end.

(** [k in o] for an object's own properties. *)
Fixpoint has_prop (k : string) (o : Obj) : bool :=
  match o with
  | [] => false
  | (k', _) :: o' => if String.eqb k k' then true else has_prop k o'
  end.

(** [o[k]]: [undefined] when the property is absent. *)
Fixpoint get_prop (k : string) (o : Obj) : JsVal :=
  match o with
  | [] => VUndefined
  | (k', v) :: o' => if String.eqb k k' then v else get_prop k o'
  end.

(** [o[k] = v]: an existing property keeps its place, a new one is
    appended. *)
Fixpoint set_prop (k : string) (v : JsVal) (o : Obj) : Obj :=
  match o with
  | [] => [(k, v)]
  | (k', v') :: o' =>
      if String.eqb k k' then (k, v) :: o' else (k', v') :: set_prop k v o'
  end.

(** The indexed own properties ["0"], ["1"], ... of an array or of a
    string. *)
Fixpoint indexed (i : nat) (vs : list JsVal) : list (string * JsVal) :=
  match vs with
  | [] => []
  | v :: vs' => (pretty i, v) :: indexed (S i) vs'
  end.

Fixpoint characters (s : string) : list JsVal :=
  match s with
  | EmptyString => []
  | String c s' => VStr (String c EmptyString) :: characters s'
  end.

(** The own enumerable properties that [Object.assign] copies from a
    source: those of an object, the elements of an array and the
    characters of a string under their indices; [true], [false], a
    number, [undefined] and [null] have none. *)
Definition own_props (source : JsVal) : list (string * JsVal) :=
  match source with
  | VObj props => props
  | VArr elems => indexed 0 elems
  | VStr s => indexed 0 (characters s)
  | VUndefined | VNull | VBool _ | VNum _ => []
  end.

(** [Object.assign(target, source)]: every own property of the source
    is written to the target, in the source's order.  (A new property
    is appended; that JavaScript lists index-like keys before the
    others when it enumerates an object is not modelled, and nothing
    below depends on it.) *)
Definition assign (target : Obj) (source : JsVal) : Obj :=
  fold_left (fun t kv => set_prop (fst kv) (snd kv) t) (own_props source) target.

(** [v.k] for an arbitrary value: reading a property of [undefined] or
    [null] throws. *)
Definition member (v : JsVal) (k : string) : Completion JsVal :=
  match v with
  | VUndefined => Throw (TypeError ("Cannot read property '" +:+ k +:+ "' of undefined"))
  | VNull => Throw (TypeError ("Cannot read property '" +:+ k +:+ "' of null"))
  | VObj props => Return (get_prop k props)
  | _ => Return VUndefined
  end.

End JS.
Export JS.

(** ** [TypeHierarchyType] and [flip] *)

Module TypeHierarchyType.

(** [enum TypeHierarchyType { SUBTYPE = 'subtype', SUPERTYPE = 'supertype' }]:
    a string enum, so at run time a member is its string. *)
Definition SUBTYPE : string := "subtype".
Definition SUPERTYPE : string := "supertype".

(** [flip]: the [switch] compares with [===]; the [default] branch
    throws [new Error(`Unexpected type hierarchy type: ${type}.`)]. *)
Definition flip (type : string) : Completion string :=
  if String.eqb type SUBTYPE then Return SUPERTYPE
  else if String.eqb type SUPERTYPE then Return SUBTYPE
  else Throw (Error ("Unexpected type hierarchy type: " +:+ type +:+ ".")).

(** [flip] twice, an error of the first call propagating. *)
Definition flip_twice (type : string) : Completion string :=
  match flip type with
  | Return t => flip t
  | Throw e => Throw e
  end.

End TypeHierarchyType.

(** ** Protocol shapes ([typehierarchy-protocol.ts]) *)

Module Protocol.

(** [Position], [Range] and [Location] of the language server protocol. *)
Record Position := { line : Z; character : Z }.
Record Range := { start : Position; end_ : Position }.
Record Location := { loc_uri : string; loc_range : Range }.

(** [interface TypeHierarchyItem]: optional members are [None] when the
    property is absent from the object. *)
Inductive TypeHierarchyItem :=
| Item (name : string) (detail : option string) (kind : Z)
       (deprecated : option bool) (uri : string)
       (range selectionRange : Range)
       (parents children : option (list TypeHierarchyItem))
       (data : option JsVal).

Definition item_uri (i : TypeHierarchyItem) : string :=
  match i with Item _ _ _ _ u _ _ _ _ _ => u end.
Definition item_range (i : TypeHierarchyItem) : Range :=
  match i with Item _ _ _ _ _ r _ _ _ _ => r end.

(** The run-time objects of these shapes. *)
Definition position_to_js (p : Position) : JsVal :=
  VObj [("line", VNum (line p)); ("character", VNum (character p))].

Definition range_to_js (r : Range) : JsVal :=
  VObj [("start", position_to_js (start r)); ("end", position_to_js (end_ r))].

Definition location_to_js (l : Location) : Obj :=
  [("uri", VStr (loc_uri l)); ("range", range_to_js (loc_range l))].

Definition optional {A} (k : string) (f : A -> JsVal) (o : option A) : Obj :=
  match o with
  | Some a => [(k, f a)]
  | None => []
  end.

Fixpoint item_to_js (i : TypeHierarchyItem) : Obj :=
  match i with
  | Item name detail kind deprecated uri range selectionRange parents children data =>
      [("name", VStr name)] ++ optional "detail" VStr detail
      ++ [("kind", VNum kind)] ++ optional "deprecated" VBool deprecated
      ++ [("uri", VStr uri); ("range", range_to_js range);
          ("selectionRange", range_to_js selectionRange)]
      ++ optional "parents" (fun l => VArr (map (fun c => VObj (item_to_js c)) l)) parents
      ++ optional "children" (fun l => VArr (map (fun c => VObj (item_to_js c)) l)) children
      ++ optional "data" (fun d => d) data
  end.

(** [TypeHierarchyRequest.type =
     new RequestType(...)('textDocument/typeHierarchy')] *)
Definition TypeHierarchyRequest_type : string := "textDocument/typeHierarchy".

(** [ResolveTypeHierarchyRequest.type], the request that carries an item. *)
Definition ResolveTypeHierarchyRequest_type : string := "typeHierarchy/resolve".

(** What a caller may hand to [superTypes] / [subTypes] when it holds an
    item or a location. *)
Inductive ItemOrLocation :=
| OfItem (i : TypeHierarchyItem)
| OfLocation (l : Location).

Definition source_to_js (s : ItemOrLocation) : Obj :=
  match s with
  | OfItem i => item_to_js i
  | OfLocation l => location_to_js l
  end.

Definition source_uri (s : ItemOrLocation) : string :=
  match s with
  | OfItem i => item_uri i
  | OfLocation l => loc_uri l
  end.

Definition source_range (s : ItemOrLocation) : Range :=
  match s with
  | OfItem i => item_range i
  | OfLocation l => loc_range l
  end.

End Protocol.
Export Protocol.

(** ** The object store *)

Module Store.

(** A reference to a [TypeHierarchyFeature] instance (object identity). *)
Definition FeatureRef := nat.

(** The two lifecycle events of a feature. *)
Inductive LifecycleEvent := Initialized | Disposed.

(** The listeners that can be attached to a lifecycle event: the two
    closures that [TypeHierarchyService.register] creates, with the
    variables they capture, and an outside observer that only records
    what it is told. *)
Inductive Callback :=
| ServiceOnInitialized (languageId : string) (newFeature : FeatureRef)
| ServiceOnDisposed (languageId : string) (toDisposeOnFeatureDispose : nat)
| Observer (tag : nat).

(** Modelled from the spec: the event emitter of [@theia/core] is not
    among the sources.  Section 5 of the specification gives its
    contract: events are delivered synchronously to the subscribers in
    registration order, and a handler that throws does not block the
    delivery to the later ones; section 4.3 says that the streams are
    closed on disposal.  Every subscription has an identity, by which its
    [Disposable] removes it. *)
Record Emitter := {
  callbacks : list (nat * Callback);
  disposed : bool
}.

(** The [Disposable] returned by subscribing to an event. *)
Inductive Disposable :=
| Unsubscribe (f : FeatureRef) (ev : LifecycleEvent) (subscription : nat).

(** The mutable fields of a [TypeHierarchyFeature].  [_providers] is the
    [Map<string, Disposable>] of the base class [TextDocumentFeature];
    every value stored in it is the disposable made by
    [registerLanguageProvider], [Disposable.create(() => this.toDispose.dispose())],
    so the keys (the registration identifiers, in insertion order) are
    all that has to be kept. *)
Record Feature := {
  languageId : string;
  onInitializedEmitter : Emitter;
  onDisposedEmitter : Emitter;
  _providers : list nat
}.

(** What an outside party can see happening, in order. *)
Inductive Event :=
| Fired (f : FeatureRef) (ev : LifecycleEvent)
| Observed (tag : nat) (f : FeatureRef) (ev : LifecycleEvent)
| MapSet (languageId : string) (f : FeatureRef)
| MapDelete (languageId : string)
| Registered (f : FeatureRef) (id : nat) (registerOptions : Obj)
| Request (f : FeatureRef) (method : string) (params : Obj).

(** The state of the program: the service's [features] map, the feature
    instances, the [DisposableCollection]s made by [register], the
    argument objects callers hold references to, the observable history,
    and the supply of fresh identities ([v4()] and allocation). *)
Record World := {
  features : gmap string FeatureRef;
  instances : gmap FeatureRef Feature;
  collections : gmap nat (list Disposable);
  heap : gmap nat Obj;
  trace : list Event;
  fresh : nat
}.

Definition set_features (m : gmap string FeatureRef) (w : World) : World :=
  {| features := m; instances := instances w; collections := collections w;
     heap := heap w; trace := trace w; fresh := fresh w |}.

Definition set_instances (m : gmap FeatureRef Feature) (w : World) : World :=
  {| features := features w; instances := m; collections := collections w;
     heap := heap w; trace := trace w; fresh := fresh w |}.

Definition set_collections (m : gmap nat (list Disposable)) (w : World) : World :=
  {| features := features w; instances := instances w; collections := m;
     heap := heap w; trace := trace w; fresh := fresh w |}.

Definition set_heap (m : gmap nat Obj) (w : World) : World :=
  {| features := features w; instances := instances w; collections := collections w;
     heap := m; trace := trace w; fresh := fresh w |}.

Definition log (e : Event) (w : World) : World :=
  {| features := features w; instances := instances w; collections := collections w;
     heap := heap w; trace := trace w ++ [e]; fresh := fresh w |}.

(** Take [n] fresh identities. *)
Definition bump (n : nat) (w : World) : World :=
  {| features := features w; instances := instances w; collections := collections w;
     heap := heap w; trace := trace w; fresh := fresh w + n |}.

Definition update_feature (f : FeatureRef) (g : Feature -> Feature) (w : World) : World :=
  match instances w !! f with
  | Some ft => set_instances (<[f := g ft]> (instances w)) w
  | None => w
  end.

Definition emitter_of (ev : LifecycleEvent) (ft : Feature) : Emitter :=
  match ev with
  | Initialized => onInitializedEmitter ft
  | Disposed => onDisposedEmitter ft
  end.

Definition with_emitter (ev : LifecycleEvent) (g : Emitter -> Emitter) (ft : Feature) : Feature :=
  match ev with
  | Initialized =>
      {| languageId := languageId ft; onInitializedEmitter := g (onInitializedEmitter ft);
         onDisposedEmitter := onDisposedEmitter ft; _providers := _providers ft |}
  | Disposed =>
      {| languageId := languageId ft; onInitializedEmitter := onInitializedEmitter ft;
         onDisposedEmitter := g (onDisposedEmitter ft); _providers := _providers ft |}
  end.

Definition with_providers (g : list nat -> list nat) (ft : Feature) : Feature :=
  {| languageId := languageId ft; onInitializedEmitter := onInitializedEmitter ft;
     onDisposedEmitter := onDisposedEmitter ft; _providers := g (_providers ft) |}.

(** Modelled from the spec: [emitter.event(listener)] of the absent
    emitter adds a subscriber; a closed stream takes none. *)
Definition add_callback (subscription : nat) (cb : Callback) (e : Emitter) : Emitter :=
  if disposed e then e
  else {| callbacks := callbacks e ++ [(subscription, cb)]; disposed := false |}.

Definition remove_callback (subscription : nat) (e : Emitter) : Emitter :=
  {| callbacks := filter (fun c => c.1 <> subscription) (callbacks e);
     disposed := disposed e |}.

(** Modelled from the spec: [emitter.dispose()] of the absent emitter
    closes the stream and drops its subscribers (section 4.3). *)
Definition close_emitter (e : Emitter) : Emitter :=
  {| callbacks := []; disposed := true |}.

(** [disposable.dispose()] for a subscription. *)
Definition dispose_disposable (d : Disposable) (w : World) : World :=
  match d with
  | Unsubscribe f ev subscription =>
      update_feature f (with_emitter ev (remove_callback subscription)) w
  end.

(** Modelled from the spec: [DisposableCollection] of [@theia/core] is
    not among the sources.  [dispose()] disposes what was pushed, the
    last pushed first, and leaves the collection empty, so that a second
    call does nothing. *)
Definition dispose_collection (c : nat) (w : World) : World :=
  match collections w !! c with
  | Some ds =>
      set_collections (<[c := []]> (collections w))
        (foldl (fun w' d => dispose_disposable d w') w (rev ds))
  | None => w
  end.

(** [this.toDispose.dispose()] of a feature, where
    [toDispose = new DisposableCollection(this.onInitializedEmitter, this.onDisposedEmitter)]. *)
Definition dispose_toDispose (f : FeatureRef) (w : World) : World :=
  update_feature f (with_emitter Initialized close_emitter)
    (update_feature f (with_emitter Disposed close_emitter) w).

Definition is_open (f : FeatureRef) (ev : LifecycleEvent) (w : World) : bool :=
  match instances w !! f with
  | Some ft => negb (disposed (emitter_of ev ft))
  | None => false
  end.

Definition providers_of (f : FeatureRef) (w : World) : list nat :=
  match instances w !! f with
  | Some ft => _providers ft
  | None => []
  end.

End Store.
Export Store.

(** ** Event delivery and the service's listeners *)

Module Delivery.

Section WithDispose.

(** [feature.dispose()] as the listeners call it: the callee of a
    re-entrant call, with whatever call depth is left to it. *)
Variable dispose : FeatureRef -> World -> World * Completion unit.

(** The body of the listener of [newFeature.onInitialized] in
    [TypeHierarchyService.register]:
<<
  const oldFeature = this.features.get(languageId);
  if (oldFeature) { oldFeature.dispose(); }
  this.features.set(languageId, newFeature);
>> *)
Definition on_initialized (languageId : string) (newFeature : FeatureRef) (w : World)
  : World * Completion unit :=
  match features w !! languageId with
  | Some oldFeature =>
      match dispose oldFeature w with
      | (w1, Return _) =>
          (log (MapSet languageId newFeature)
             (set_features (<[languageId := newFeature]> (features w1)) w1), Return tt)
      | (w1, Throw e) => (w1, Throw e)
      end
  | None =>
      (log (MapSet languageId newFeature)
         (set_features (<[languageId := newFeature]> (features w)) w), Return tt)
  end.

(** The body of the listener of [newFeature.onDisposed]:
<<
  if (this.features.has(languageId)) {
      this.features.get(languageId)!.dispose();
      this.features.delete(languageId);
  }
  toDisposeOnFeatureDispose.dispose();
>> *)
Definition on_disposed (languageId : string) (toDisposeOnFeatureDispose : nat) (w : World)
  : World * Completion unit :=
  match features w !! languageId with
  | Some mapped =>
      match dispose mapped w with
      | (w1, Return _) =>
          (dispose_collection toDisposeOnFeatureDispose
             (log (MapDelete languageId)
                (set_features (delete languageId (features w1)) w1)), Return tt)
      | (w1, Throw e) => (w1, Throw e)
      end
  | None => (dispose_collection toDisposeOnFeatureDispose w, Return tt)
  end.

Definition invoke (f : FeatureRef) (ev : LifecycleEvent) (cb : Callback) (w : World)
  : World * Completion unit :=
  match cb with
  | ServiceOnInitialized languageId newFeature => on_initialized languageId newFeature w
  | ServiceOnDisposed languageId c => on_disposed languageId c w
  | Observer tag => (log (Observed tag f ev) w, Return tt)
  end.

(** Modelled from the spec: the delivery loop of the absent emitter
    (section 5).  The subscribers present when the event is fired are
    served in registration order; what a listener did before throwing
    stays done, and its error stops with the emitter, so that the later
    subscribers are served all the same. *)
Definition deliver (f : FeatureRef) (ev : LifecycleEvent)
  (cbs : list (nat * Callback)) (w : World) : World :=
  foldl (fun w' cb => (invoke f ev cb.2 w').1) w cbs.

(** Modelled from the spec: [emitter.fire(undefined)] of the absent
    emitter, on the [ev] emitter of feature [f]; a closed stream
    delivers nothing. *)
Definition fire (f : FeatureRef) (ev : LifecycleEvent) (w : World) : World :=
  match instances w !! f with
  | Some ft =>
      if disposed (emitter_of ev ft) then w
      else deliver f ev (callbacks (emitter_of ev ft)) (log (Fired f ev) w)
  | None => w
  end.

End WithDispose.

End Delivery.
Export Delivery.

(** ** [TypeHierarchyFeature] *)

Module TypeHierarchyFeature.

(** Modelled from the spec: the base class [TextDocumentFeature] comes
    from the language client library and is not among the sources.
    Section 6 names its registration primitive
    [register(requestType, {id, registerOptions})]: it calls
    [registerLanguageProvider] (which the feature overrides) and keeps
    the returned disposable under [id]; without a [documentSelector] in
    the options it registers nothing. *)
Definition base_register (f : FeatureRef) (id : nat) (registerOptions : Obj) (w : World) : World :=
  if truthy (get_prop "documentSelector" registerOptions) then
    log (Registered f id registerOptions)
      (update_feature f
         (with_providers (fun ps => if decide (id ∈ ps) then ps else ps ++ [id])) w)
  else w.

(** Modelled from the spec: [super.dispose()] of [TextDocumentFeature]
    disposes every provider it keeps and forgets them (section 4.3:
    after disposal all internal subscriptions are released and the two
    streams are closed).  Each provider disposes [this.toDispose]. *)
Definition base_dispose (f : FeatureRef) (w : World) : World :=
  update_feature f (with_providers (fun _ => []))
    (foldl (fun w' _ => dispose_toDispose f w') w (providers_of f w)).

(** [dispose()]:
<<
  this.onDisposedEmitter.fire(undefined);
  super.dispose();
>>
    [depth] is the number of nested calls of [dispose] the call stack
    still has room for; a call beyond it ends in the engine's
    [RangeError].  The bound is charged where [dispose] is entered.  A
    real stack can run out at any call inside a nested frame and leave
    that frame half done, so what is stated below of a disposal that
    re-enters itself is limited to what the outer frames do (the order
    of the first events, the entry written by the outermost listener);
    a disposal that is not re-entered never meets the bound. *)
Fixpoint dispose (depth : nat) (f : FeatureRef) (w : World) : World * Completion unit :=
  match depth with
  | 0 => (w, Throw (RangeError "Maximum call stack size exceeded"))
  | S d => (base_dispose f (fire (dispose d) f Disposed w), Return tt)
  end.

(** [initialize(capabilities, documentSelector)]:
<<
  if (!documentSelector) { return; }
  const capabilitiesExt = capabilities;
  if (capabilitiesExt.typeHierarchy) {
      this.onInitializedEmitter.fire(undefined);
      const id = v4();
      this.register(this.messages, {
          id,
          registerOptions: Object.assign({}, { documentSelector: documentSelector },
                                         capabilitiesExt.typeHierarchy)
      });
  }
>>
    [v4()] draws the next unused identity of the store; [depth] is the
    room the stack has for the [dispose] calls of the listeners. *)
Definition initialize (depth : nat) (f : FeatureRef)
  (capabilities : Obj) (documentSelector : JsVal) (w : World) : World :=
  if negb (truthy documentSelector) then w
  else
    let typeHierarchy := get_prop "typeHierarchy" capabilities in
    if truthy typeHierarchy then
      let w1 := fire (dispose depth) f Initialized w in
      let id := fresh w1 in
      base_register f id
        (assign (assign [] (VObj [("documentSelector", documentSelector)])) typeHierarchy)
        (bump 1 w1)
    else w.

Section WithClient.

(** [this._client.sendRequest(type, params)]: the language client is an
    outside collaborator; it answers with a value or rejects. *)
Variable sendRequest : FeatureRef -> string -> Obj -> Completion JsVal.

(** [get(params)]:
<<
  const item = await this._client.sendRequest(TypeHierarchyRequest.type, params);
  return item ? item : undefined;
>>
    [params] is a reference to the request object. *)
Definition get (f : FeatureRef) (params : nat) (w : World) : World * Completion JsVal :=
  match heap w !! params with
  | Some o =>
      let w1 := log (Request f TypeHierarchyRequest_type o) w in
      match sendRequest f TypeHierarchyRequest_type o with
      | Return item => (w1, Return (if truthy item then item else VUndefined))
      | Throw e => (w1, Throw e)
      end
  | None => (w, Throw (TypeError "params is not an object"))
  end.

End WithClient.

End TypeHierarchyFeature.

(** ** [TypeHierarchyService] *)

Module TypeHierarchyService.

(** [new TypeHierarchyFeature(client)]: a fresh instance for the
    client's language, with nothing subscribed and nothing registered. *)
Definition new_feature (languageId : string) (w : World) : FeatureRef * World :=
  let f := fresh w in
  (f, bump 1 (set_instances
       (<[f := {| languageId := languageId;
                  onInitializedEmitter := {| callbacks := []; disposed := false |};
                  onDisposedEmitter := {| callbacks := []; disposed := false |};
                  _providers := [] |}]> (instances w)) w)).

(** [register(newFeature)]: a new [DisposableCollection] receives the
    two subscriptions. *)
Definition register (newFeature : FeatureRef) (w : World) : World :=
  match instances w !! newFeature with
  | Some ft =>
      let languageId := languageId ft in
      let toDisposeOnFeatureDispose := fresh w in
      let s1 := fresh w + 1 in
      let s2 := fresh w + 2 in
      let w1 := update_feature newFeature
                  (with_emitter Initialized
                     (add_callback s1 (ServiceOnInitialized languageId newFeature))) w in
      let w2 := update_feature newFeature
                  (with_emitter Disposed
                     (add_callback s2 (ServiceOnDisposed languageId toDisposeOnFeatureDispose))) w1 in
      bump 3 (set_collections
                (<[toDisposeOnFeatureDispose :=
                     [Unsubscribe newFeature Initialized s1;
                      Unsubscribe newFeature Disposed s2]]> (collections w2)) w2)
  | None => w
  end.

(** [TypeHierarchyService.createNewFeature(service, client)] *)
Definition createNewFeature (languageId : string) (w : World) : FeatureRef * World :=
  let (feature, w1) := new_feature languageId w in
  (feature, register feature w1).

(** [isEnabledFor(languageId)]: [!!languageId && this.features.has(languageId)] *)
Definition isEnabledFor (languageId : option string) (w : World) : bool :=
  match languageId with
  | Some l => negb (String.eqb l "") && bool_decide (is_Some (features w !! l))
  | None => false
  end.

(** Modelled from the spec: [Position.is] and [TextDocumentIdentifier.is]
    come from the protocol types library and are not among the sources;
    they accept an object with numeric [line] and [character], and an
    object with a string [uri]. *)
Definition Position_is (v : JsVal) : bool :=
  match v with
  | VObj props =>
      match get_prop "line" props, get_prop "character" props with
      | VNum _, VNum _ => true
      | _, _ => false
      end
  | _ => false
  end.

Definition TextDocumentIdentifier_is (v : JsVal) : bool :=
  match v with
  | VObj props => match get_prop "uri" props with VStr _ => true | _ => false end
  | _ => false
  end.

(** [isTextDocumentPositionParams(args)] for an object [args]:
<<
  !!args && 'position' in args && 'textDocument' in args
    && Position.is(args['position']) && TextDocumentIdentifier.is(args['textDocument'])
>> *)
Definition isTextDocumentPositionParams (args : Obj) : bool :=
  has_prop "position" args && has_prop "textDocument" args
  && Position_is (get_prop "position" args)
  && TextDocumentIdentifier_is (get_prop "textDocument" args).

(** Allocation of an object literal. *)
Definition alloc (o : Obj) (w : World) : nat * World :=
  (fresh w, bump 1 (set_heap (<[fresh w := o]> (heap w)) w)).

(** [obj[k] = v] through a reference. *)
Definition write (r : nat) (k : string) (v : JsVal) (w : World) : World :=
  match heap w !! r with
  | Some o => set_heap (<[r := set_prop k v o]> (heap w)) w
  | None => w
  end.

(** [toTextDocumentPositionParams(arg)]: the argument itself when it is
    a position parameter, otherwise a new object
    [{ position: arg.range.start, textDocument: { uri: arg.uri } }]. *)
Definition toTextDocumentPositionParams (arg : nat) (w : World) : World * Completion nat :=
  match heap w !! arg with
  | Some o =>
      if isTextDocumentPositionParams o then (w, Return arg)
      else
        match member (get_prop "range" o) "start" with
        | Return position =>
            let uri := get_prop "uri" o in
            let (params, w1) :=
              alloc [("position", position); ("textDocument", VObj [("uri", uri)])] w in
            (w1, Return params)
        | Throw e => (w, Throw e)
        end
  | None => (w, Throw (TypeError "arg is not an object"))
  end.

Section WithClient.

Variable sendRequest : FeatureRef -> string -> Obj -> Completion JsVal.

(** [types(feature, arg, direction)]:
<<
  if (feature) {
      const params = this.toTextDocumentPositionParams(arg);
      params.direction = direction;
      params.resolve = 1;
      return feature.get(params);
  }
  return undefined;
>> *)
Definition types (feature : option FeatureRef) (arg : nat) (direction : string) (w : World)
  : World * Completion JsVal :=
  match feature with
  | Some f =>
      match toTextDocumentPositionParams arg w with
      | (w1, Return params) =>
          let w2 := write params "direction" (VStr direction) w1 in
          let w3 := write params "resolve" (VNum 1) w2 in
          TypeHierarchyFeature.get sendRequest f params w3
      | (w1, Throw e) => (w1, Throw e)
      end
  | None => (w, Return VUndefined)
  end.

Definition superTypes (languageId : string) (arg : nat) (w : World) : World * Completion JsVal :=
  types (features w !! languageId) arg "parents" w.

Definition subTypes (languageId : string) (arg : nat) (w : World) : World * Completion JsVal :=
  types (features w !! languageId) arg "children" w.

End WithClient.

End TypeHierarchyService.

(** ** What the statements speak of *)

Module Observations.

Import TypeHierarchyFeature TypeHierarchyService.

(** The request object that [types] derives from an item or a location. *)
Definition derived_params (src : ItemOrLocation) (direction : string) : Obj :=
  [("position", position_to_js (start (source_range src)));
   ("textDocument", VObj [("uri", VStr (source_uri src))]);
   ("direction", VStr direction);
   ("resolve", VNum 1)].

(** What [types] makes of a position parameter: the same object with
    [direction] and [resolve] assigned. *)
Definition overwritten (o : Obj) (direction : string) : Obj :=
  set_prop "resolve" (VNum 1) (set_prop "direction" (VStr direction) o).

(** The options handed to the registration:
    [Object.assign({}, { documentSelector }, capabilitiesExt.typeHierarchy)]. *)
Definition merged_options (capabilities : Obj) (documentSelector : JsVal) : Obj :=
  assign (assign [] (VObj [("documentSelector", documentSelector)]))
         (get_prop "typeHierarchy" capabilities).

(** The events that delivering a lifecycle event, or disposing a
    feature, can add to the history: never an Initialized signal, a
    registration or a request. *)
Definition step_kind (e : Event) : Prop :=
  match e with
  | Fired _ Disposed | Observed _ _ _ | MapSet _ _ | MapDelete _ => True
  | Fired _ Initialized | Registered _ _ _ | Request _ _ _ => False
  end.

(** What such a step leaves alone (the supply of identities, the
    argument objects, which features exist) and what it only extends
    (the history). *)
Record evolves (w w' : World) : Prop := {
  ev_fresh : fresh w' = fresh w;
  ev_heap : heap w' = heap w;
  ev_exists : forall x, is_Some (instances w' !! x) <-> is_Some (instances w !! x);
  ev_trace : exists t, trace w' = trace w ++ t /\ Forall step_kind t
}.

(** How often feature [f] has signalled [ev], and how often it has
    registered, in a history. *)
Definition is_fired (f : FeatureRef) (ev : LifecycleEvent) (e : Event) : bool :=
  match e, ev with
  | Fired g Initialized, Initialized => Nat.eqb g f
  | Fired g Disposed, Disposed => Nat.eqb g f
  | _, _ => false
  end.

Definition is_registered (f : FeatureRef) (e : Event) : bool :=
  match e with
  | Registered g _ _ => Nat.eqb g f
  | _ => false
  end.

Definition fired_count (f : FeatureRef) (ev : LifecycleEvent) (t : list Event) : nat :=
  length (List.filter (is_fired f ev) t).

Definition registered_count (f : FeatureRef) (t : list Event) : nat :=
  length (List.filter (is_registered f) t).

(** What the lifecycle of a feature depends on: whether its two streams
    are open and which registrations it keeps. *)
Definition view (f : FeatureRef) (w : World) : bool * bool * list nat :=
  (is_open f Initialized w, is_open f Disposed w, providers_of f w).

(** The two properties of a view that decide what [dispose] does:
    a feature that holds a registration or has both streams closed;
    a feature that holds none and can still signal Disposed. *)
Definition settled (v : bool * bool * list nat) : Prop :=
  v.2 <> [] \/ (v.1.1 = false /\ v.1.2 = false).

Definition unregistered (v : bool * bool * list nat) : Prop :=
  v.2 = [] /\ v.1.2 = true.

Section Ordering.

(** The language, the feature mapped for it when the transition starts,
    and the history up to that point. *)
Variable L : string.
Variable A : FeatureRef.
Variable t0 : list Event.

(** In a stretch of history, every installation of a feature for [L]
    comes after a Disposed signal of [A]. *)
Definition preceded (t : list Event) : Prop :=
  forall i x, t !! i = Some (MapSet L x) ->
    exists j, j < i /\ t !! j = Some (Fired A Disposed).

(** [A] has signalled Disposed since the transition started. *)
Definition signalled (w : World) : Prop :=
  exists t, trace w = t0 ++ t /\ preceded t /\ In (Fired A Disposed) t.

(** [A] has not been replaced yet: it is still mapped and still open. *)
Definition pending (w : World) : Prop :=
  (exists t, trace w = t0 ++ t /\ preceded t)
  /\ features w !! L = Some A /\ is_open A Disposed w = true.

Definition orderly (w : World) : Prop := signalled w \/ pending w.

End Ordering.

End Observations.
Export Observations.

(** ** Concrete scenes used by the examples *)

Module Scenes.

Import TypeHierarchyFeature TypeHierarchyService.

Definition empty_world : World :=
  {| features := ∅; instances := ∅; collections := ∅; heap := ∅;
     trace := []; fresh := 0 |}.

(** A server that supports the type hierarchy, and a document selector. *)
Definition supporting : Obj := [("typeHierarchy", VBool true)].
Definition go_selector : JsVal := VArr [VStr "go"].

(** A client whose server has nothing to report. *)
Definition silent_client (f : FeatureRef) (method : string) (params : Obj)
  : Completion JsVal := Return VNull.

(** A position parameter that already asks for two levels in both
    directions. *)
Definition both_params : Obj :=
  [("textDocument", VObj [("uri", VStr "file:///a.ts")]);
   ("position", VObj [("line", VNum 3); ("character", VNum 5)]);
   ("resolve", VNum 2);
   ("direction", VStr "both")].

Definition a_range : Range :=
  {| start := {| line := 3; character := 5 |};
     end_ := {| line := 9; character := 1 |} |}.

Definition a_location : Location :=
  {| loc_uri := "file:///a.ts"; loc_range := a_range |}.

Definition an_item : TypeHierarchyItem :=
  Item "Shape" None 5 None "file:///a.ts" a_range a_range None (Some [])
       (Some (VStr "token")).

(** A service in which feature [0] serves "go", and a caller holding
    [both_params] under reference [10], [a_location] under [11] and
    [an_item] under [12]. *)
Definition go_served : World :=
  let (a, w) := createNewFeature "go" empty_world in
  let w1 := initialize 8 a supporting go_selector w in
  set_heap (<[12 := item_to_js an_item]>
             (<[11 := location_to_js a_location]> (<[10 := both_params]> (heap w1))))
           (bump 10 w1).

(** An outside party subscribes to a lifecycle event of a feature
    ([feature.onInitialized(listener)], [feature.onDisposed(listener)]);
    its listener records that it was told. *)
Definition observe (f : FeatureRef) (ev : LifecycleEvent) (tag : nat) (w : World) : World :=
  bump 1 (update_feature f (with_emitter ev (add_callback (fresh w) (Observer tag))) w).

(** A feature for "go" that no service knows, watched by an observer on
    each of its two events. *)
Definition watched : World :=
  let (a, w) := new_feature "go" empty_world in
  observe a Disposed 2 (observe a Initialized 1 w).

(** A new feature for "go", registered with the service and not yet
    initialized. *)
Definition go_created : World := (createNewFeature "go" empty_world).2.

(** Feature [0] serves "go"; feature [5] was created for "go" as well
    and has not been initialized. *)
Definition go_served_and_bystander : World :=
  let (a, w) := createNewFeature "go" empty_world in
  let w1 := initialize 8 a supporting go_selector w in
  (createNewFeature "go" w1).2.

End Scenes.

(** ** The rest of the service and of the feature *)

Module Service.

(** The loop of [TypeHierarchyService.dispose()],
    [this.features.forEach(feature => feature.dispose())].  A [Map] is
    walked in insertion order, which a [gmap] does not record: [order]
    is that order.  An entry that a listener deleted before its turn is
    passed over, as [Map.prototype.forEach] does; an error thrown by a
    [dispose] ends the loop.  (The listeners that [register] subscribes
    add no entry while a Disposed event is delivered.) *)
Fixpoint forEach_dispose (depth : nat) (order : list string) (w : World)
  : World * Completion unit :=
  match order with
  | [] => (w, Return tt)
  | languageId :: rest =>
      match features w !! languageId with
      | Some feature =>
          match TypeHierarchyFeature.dispose depth feature w with
          | (w1, Return _) => forEach_dispose depth rest w1
          | (w1, Throw e) => (w1, Throw e)
          end
      | None => forEach_dispose depth rest w
      end
  end.

(** [dispose()] of the service:
<<
  this.features.forEach(feature => feature.dispose());
  this.features.clear();
>> *)
Definition dispose (depth : nat) (order : list string) (w : World) : World * Completion unit :=
  match forEach_dispose depth order w with
  | (w1, Return _) => (set_features ∅ w1, Return tt)
  | (w1, Throw e) => (w1, Throw e)
  end.

End Service.

Module Capabilities.

(** [fillClientCapabilities(capabilities)]:
<<
  if (!capabilities.textDocument) { capabilities.textDocument = {}; }
  (capabilities.textDocument as any).typeHierarchyCapabilities = { typeHierarchy: true };
>>
    The result is the [capabilities] object after the call.  A
    [textDocument] that is a truthy primitive makes the assignment throw
    (module code is strict); an array there has no counterpart with a
    named property in [JsVal] and is outside [ClientCapabilities]. *)
Definition fillClientCapabilities (capabilities : Obj) : Completion Obj :=
  let capabilities1 :=
    if truthy (get_prop "textDocument" capabilities) then capabilities
    else set_prop "textDocument" (VObj []) capabilities in
  match get_prop "textDocument" capabilities1 with
  | VObj textDocument =>
      Return (set_prop "textDocument"
                (VObj (set_prop "typeHierarchyCapabilities"
                         (VObj [("typeHierarchy", VBool true)]) textDocument))
                capabilities1)
  | _ => Throw (TypeError "Cannot create property 'typeHierarchyCapabilities'")
  end.

End Capabilities.

(** ** [DefaultBrandingService] ([packages/branding/src/browser/branding-service.ts]) *)

Module DefaultBrandingService.

(** [enum BrandingType { MAIN_LOGO, MENU_LOGO }]: a numeric enum, so at
    run time a member is its number. *)
Definition MAIN_LOGO : Z := 0.
Definition MENU_LOGO : Z := 1.

(** The two fields of the service. *)
Record State := { mainLogoPath : string; menuLogoPath : string }.

(** The field initialisers of the class. *)
Definition initial : State :=
  {| mainLogoPath := "../../src/browser/style/variables-dark.useable.css";
     menuLogoPath := "../../src/browser/style/variables-light.useable.css" |}.

(** [setResource(type, path)]: any other [type] changes nothing. *)
Definition setResource (type : Z) (path : string) (s : State) : State :=
  if (type =? MAIN_LOGO)%Z then {| mainLogoPath := path; menuLogoPath := menuLogoPath s |}
  else if (type =? MENU_LOGO)%Z then {| mainLogoPath := mainLogoPath s; menuLogoPath := path |}
  else s.

(** [getResource(type)]: the empty string for any other [type]. *)
Definition getResource (type : Z) (s : State) : string :=
  if (type =? MAIN_LOGO)%Z then mainLogoPath s
  else if (type =? MENU_LOGO)%Z then menuLogoPath s
  else "".

End DefaultBrandingService.

(** ** Disposals that are not re-entered *)

Module Reentry.

(** A listener that calls [dispose] on no feature when it runs in [w]:
    an outside observer, or the service's [onDisposed] listener for a
    language that has no entry in the map ([this.features.has] is
    false, so only [toDisposeOnFeatureDispose.dispose()] runs). *)
Definition disposes_nothing (w : World) (cb : Callback) : Prop :=
  match cb with
  | Observer _ => True
  | ServiceOnDisposed languageId _ => features w !! languageId = None
  | ServiceOnInitialized _ _ => False
  end.

(** [dispose()] of feature [f] is not re-entered from [w]: none of the
    listeners of its Disposed event disposes a feature.  This is so for
    a feature no service knows, and for a registered feature whose
    language has no entry; it is not so for the mapped feature of a
    language. *)
Definition not_reentered (f : FeatureRef) (w : World) : Prop :=
  match instances w !! f with
  | Some ft =>
      Forall (fun c => disposes_nothing w c.2) (callbacks (onDisposedEmitter ft))
  | None => True
  end.

(** The events an outside observer adds to the history. *)
Definition is_observation (e : Event) : Prop :=
  match e with
  | Observed _ _ _ => True
  | _ => False
  end.

(** What a delivery does when no listener disposes a feature: the
    service's map and every feature's streams and registrations stay as
    they are, and only observations are added to the history. *)
Record quietly (w w' : World) : Prop := {
  q_features : features w' = features w;
  q_view : forall x, view x w' = view x w;
  q_trace : exists t, trace w' = trace w ++ t /\ Forall is_observation t
}.

End Reentry.
Export Reentry.

(** ** Further scenes *)

Module MoreScenes.

(** A client whose transport fails. *)
Definition failing_client (f : FeatureRef) (method : string) (params : Obj)
  : Completion JsVal := Throw (Error "connection closed").

(** An object that is neither a position parameter nor an item: it has
    no [range]. *)
Definition shapeless : Obj := [("name", VStr "Shape")].

(** An object whose [position] is not a [Position] (its line is a
    string) and that carries a [range] without [start] and no [uri]. *)
Definition half_shaped : Obj :=
  [("position", VObj [("line", VStr "3"); ("character", VNum 5)]);
   ("textDocument", VObj [("uri", VStr "file:///a.ts")]);
   ("range", VObj [("end", VObj [("line", VNum 9); ("character", VNum 1)])])].

(** [Scenes.go_served], the caller also holding [shapeless] under
    reference [13] and [half_shaped] under [14]. *)
Definition go_served_more : World :=
  set_heap (<[14 := half_shaped]> (<[13 := shapeless]> (heap Scenes.go_served)))
           Scenes.go_served.

(** [Scenes.watched] after a successful negotiation: a feature that
    no service knows, watched by two observers, holding a registration. *)
Definition watched_registered : World :=
  TypeHierarchyFeature.initialize 8 0 Scenes.supporting Scenes.go_selector Scenes.watched.

(** [Scenes.go_served] with its feature mapped under the empty
    language id as well. *)
Definition unnamed_served : World :=
  set_features (<["" := 0]> (features Scenes.go_served)) Scenes.go_served.

(** Client capabilities that already say something about text documents. *)
Definition some_capabilities : Obj :=
  [("workspace", VObj [("applyEdit", VBool true)]);
   ("textDocument", VObj [("hover", VObj [("dynamicRegistration", VBool true)])])].

End MoreScenes.

(** * Properties *)

Import TypeHierarchyFeature TypeHierarchyService.

(** ** Object properties *)

Lemma get_set_prop_eq k v o : get_prop k (set_prop k v o) = v.
Proof.
  induction o as [|[k' v'] o IH]; simpl.
  - now rewrite String.eqb_refl.
  - destruct (String.eqb k k') eqn:E; simpl.
    + now rewrite String.eqb_refl.
    + now rewrite E.
Qed.

Lemma get_set_prop_ne k k' v o :
  k' <> k -> get_prop k' (set_prop k v o) = get_prop k' o.
Proof.
  intros Hne. induction o as [|[k0 v0] o IH]; simpl.
  - destruct (String.eqb k' k) eqn:E; [|reflexivity].
    apply String.eqb_eq in E. contradiction.
  - destruct (String.eqb k k0) eqn:E; simpl.
    + apply String.eqb_eq in E. subst k0.
      destruct (String.eqb k' k) eqn:E'; [|reflexivity].
      apply String.eqb_eq in E'. contradiction.
    + destruct (String.eqb k' k0); [reflexivity | exact IH].
Qed.

Lemma has_set_prop_ne k k' v o :
  k' <> k -> has_prop k' (set_prop k v o) = has_prop k' o.
Proof.
  intros Hne. induction o as [|[k0 v0] o IH]; simpl.
  - destruct (String.eqb k' k) eqn:E; [|reflexivity].
    apply String.eqb_eq in E. contradiction.
  - destruct (String.eqb k k0) eqn:E; simpl.
    + apply String.eqb_eq in E. subst k0.
      destruct (String.eqb k' k) eqn:E'; [|reflexivity].
      apply String.eqb_eq in E'. contradiction.
    + destruct (String.eqb k' k0); [reflexivity | exact IH].
Qed.

(** ** [flip] *)

(** C8. [flip] sends each of the two members of [TypeHierarchyType] to
    the other, so that flipping twice gives the member back; on every
    other input it throws an [Error] (the one naming the unexpected
    type). *)
Theorem flip_involution_or_error (type : string) :
  TypeHierarchyType.flip TypeHierarchyType.SUBTYPE = Return TypeHierarchyType.SUPERTYPE
  /\ TypeHierarchyType.flip TypeHierarchyType.SUPERTYPE = Return TypeHierarchyType.SUBTYPE
  /\ (type = TypeHierarchyType.SUBTYPE \/ type = TypeHierarchyType.SUPERTYPE ->
      TypeHierarchyType.flip_twice type = Return type)
  /\ (type <> TypeHierarchyType.SUBTYPE -> type <> TypeHierarchyType.SUPERTYPE ->
      TypeHierarchyType.flip type
      = Throw (Error ("Unexpected type hierarchy type: " +:+ type +:+ "."))).
Proof.
  split; [reflexivity|]. split; [reflexivity|]. split.
  - intros [-> | ->]; reflexivity.
  - intros H1 H2. unfold TypeHierarchyType.flip.
    destruct (String.eqb type TypeHierarchyType.SUBTYPE) eqn:E1.
    { apply String.eqb_eq in E1. contradiction. }
    destruct (String.eqb type TypeHierarchyType.SUPERTYPE) eqn:E2.
    { apply String.eqb_eq in E2. contradiction. }
    reflexivity.
Qed.

Lemma flip_involution_or_error_witness :
  TypeHierarchyType.flip_twice "supertype" = Return "supertype"
  /\ TypeHierarchyType.flip "both"
     = Throw (Error "Unexpected type hierarchy type: both.").
Proof.
  split.
  - apply (flip_involution_or_error "supertype"). right. reflexivity.
  - apply (flip_involution_or_error "both"); discriminate.
Defined.

(** ** Argument normalisation and queries *)

Lemma source_not_position_params (src : ItemOrLocation) :
  isTextDocumentPositionParams (source_to_js src) = false.
Proof.
  destruct src as [i | l]; [|reflexivity].
  destruct i as [n d k dep u r sr ps cs da].
  destruct d, dep, ps, cs, da; reflexivity.
Qed.

Lemma source_range_start (src : ItemOrLocation) :
  member (get_prop "range" (source_to_js src)) "start"
  = Return (position_to_js (start (source_range src))).
Proof.
  destruct src as [i | l]; [|reflexivity].
  destruct i as [n d k dep u r sr ps cs da].
  destruct d, dep, ps, cs, da; reflexivity.
Qed.

Lemma source_uri_prop (src : ItemOrLocation) :
  get_prop "uri" (source_to_js src) = VStr (source_uri src).
Proof.
  destruct src as [i | l]; [|reflexivity].
  destruct i as [n d k dep u r sr ps cs da].
  destruct d, dep, ps, cs, da; reflexivity.
Qed.

Lemma types_of_source sendRequest (w : World) (f : FeatureRef) (arg : nat)
  (src : ItemOrLocation) (direction : string) :
  heap w !! arg = Some (source_to_js src) ->
  let w' := (types sendRequest (Some f) arg direction w).1 in
  trace w' = trace w ++ [Request f TypeHierarchyRequest_type (derived_params src direction)]
  /\ (arg <> fresh w -> heap w' !! arg = Some (source_to_js src))
  /\ features w' = features w.
Proof.
  intros Harg. unfold types, toTextDocumentPositionParams.
  rewrite Harg, source_not_position_params, source_range_start, source_uri_prop.
  unfold alloc, write, get. cbn [fst snd heap set_heap bump].
  rewrite lookup_insert_eq. cbn [heap set_heap].
  rewrite lookup_insert_eq. cbn [heap set_heap].
  rewrite lookup_insert_eq.
  destruct (sendRequest f _ _); cbn; repeat split; try reflexivity;
    intros Hne; rewrite !lookup_insert_ne by congruence; exact Harg.
Qed.

(** C7. For an item or a location whose range starts at (line, col) and
    whose uri is [u], with a feature mapped for the language: the request
    that [superTypes] sends has position (line, col), text document uri
    [u], [resolve] 1 and direction ["parents"]; the one that [subTypes]
    sends is the same with direction ["children"]. *)
Theorem derived_request_fields sendRequest (w : World) (languageId : string)
  (f : FeatureRef) (arg : nat) (src : ItemOrLocation) (ln col : Z) (u : string) :
  features w !! languageId = Some f ->
  heap w !! arg = Some (source_to_js src) ->
  start (source_range src) = {| line := ln; character := col |} ->
  source_uri src = u ->
  exists parentsReq childrenReq,
    trace (superTypes sendRequest languageId arg w).1
    = trace w ++ [Request f TypeHierarchyRequest_type parentsReq]
    /\ trace (subTypes sendRequest languageId arg w).1
       = trace w ++ [Request f TypeHierarchyRequest_type childrenReq]
    /\ get_prop "position" parentsReq = VObj [("line", VNum ln); ("character", VNum col)]
    /\ get_prop "textDocument" parentsReq = VObj [("uri", VStr u)]
    /\ get_prop "resolve" parentsReq = VNum 1
    /\ get_prop "direction" parentsReq = VStr "parents"
    /\ get_prop "position" childrenReq = VObj [("line", VNum ln); ("character", VNum col)]
    /\ get_prop "textDocument" childrenReq = VObj [("uri", VStr u)]
    /\ get_prop "resolve" childrenReq = VNum 1
    /\ get_prop "direction" childrenReq = VStr "children".
Proof.
  intros Hf Harg Hstart Huri.
  exists (derived_params src "parents"), (derived_params src "children").
  unfold superTypes, subTypes. rewrite Hf.
  destruct (types_of_source sendRequest w f arg src "parents" Harg) as [Hp _].
  destruct (types_of_source sendRequest w f arg src "children" Harg) as [Hc _].
  split; [exact Hp|]. split; [exact Hc|].
  unfold derived_params, position_to_js. rewrite Hstart, Huri. cbn.
  repeat split; reflexivity.
Qed.

Lemma derived_request_fields_witness :
  exists parentsReq childrenReq,
    trace (superTypes Scenes.silent_client "go" 11 Scenes.go_served).1
    = trace Scenes.go_served ++ [Request 0 TypeHierarchyRequest_type parentsReq]
    /\ trace (subTypes Scenes.silent_client "go" 11 Scenes.go_served).1
       = trace Scenes.go_served ++ [Request 0 TypeHierarchyRequest_type childrenReq]
    /\ get_prop "position" parentsReq = VObj [("line", VNum 3); ("character", VNum 5)]
    /\ get_prop "textDocument" parentsReq = VObj [("uri", VStr "file:///a.ts")]
    /\ get_prop "resolve" parentsReq = VNum 1
    /\ get_prop "direction" parentsReq = VStr "parents"
    /\ get_prop "position" childrenReq = VObj [("line", VNum 3); ("character", VNum 5)]
    /\ get_prop "textDocument" childrenReq = VObj [("uri", VStr "file:///a.ts")]
    /\ get_prop "resolve" childrenReq = VNum 1
    /\ get_prop "direction" childrenReq = VStr "children".
Proof.
  apply (derived_request_fields Scenes.silent_client Scenes.go_served "go" 0 11
           (OfLocation Scenes.a_location) 3 5 "file:///a.ts");
    vm_compute; reflexivity.
Defined.

(** C10. For an item or a location, with a feature mapped for the
    language, [superTypes] and [subTypes] send a
    [textDocument/typeHierarchy] request (not [typeHierarchy/resolve])
    whose parameter object has exactly the properties [position],
    [textDocument] (holding only [uri]), [direction] and [resolve];
    nothing else of the argument, such as [name], [kind],
    [selectionRange] or [data], is in it, and the argument object itself
    is left as it was. *)
Theorem derived_request_exact sendRequest (w : World) (languageId : string)
  (f : FeatureRef) (arg : nat) (src : ItemOrLocation) :
  features w !! languageId = Some f ->
  heap w !! arg = Some (source_to_js src) ->
  arg <> fresh w ->
  let position := position_to_js (start (source_range src)) in
  let textDocument := VObj [("uri", VStr (source_uri src))] in
  let up := (superTypes sendRequest languageId arg w).1 in
  let down := (subTypes sendRequest languageId arg w).1 in
  trace up
  = trace w ++ [Request f "textDocument/typeHierarchy"
                  [("position", position); ("textDocument", textDocument);
                   ("direction", VStr "parents"); ("resolve", VNum 1)]]
  /\ trace down
     = trace w ++ [Request f "textDocument/typeHierarchy"
                     [("position", position); ("textDocument", textDocument);
                      ("direction", VStr "children"); ("resolve", VNum 1)]]
  /\ heap up !! arg = Some (source_to_js src)
  /\ heap down !! arg = Some (source_to_js src)
  /\ TypeHierarchyRequest_type <> ResolveTypeHierarchyRequest_type.
Proof.
  intros Hf Harg Hfresh. cbn zeta. unfold superTypes, subTypes. rewrite Hf.
  destruct (types_of_source sendRequest w f arg src "parents" Harg) as (Hp & Hhp & _).
  destruct (types_of_source sendRequest w f arg src "children" Harg) as (Hc & Hhc & _).
  split; [exact Hp|]. split; [exact Hc|].
  split; [exact (Hhp Hfresh)|]. split; [exact (Hhc Hfresh)|].
  discriminate.
Qed.

Lemma derived_request_exact_witness :
  trace (superTypes Scenes.silent_client "go" 12 Scenes.go_served).1
  = trace Scenes.go_served
    ++ [Request 0 "textDocument/typeHierarchy"
          [("position", VObj [("line", VNum 3); ("character", VNum 5)]);
           ("textDocument", VObj [("uri", VStr "file:///a.ts")]);
           ("direction", VStr "parents"); ("resolve", VNum 1)]].
Proof.
  apply (derived_request_exact Scenes.silent_client Scenes.go_served "go" 0 12
           (OfItem Scenes.an_item)); vm_compute; [reflexivity | reflexivity | congruence].
Defined.

Lemma types_of_position_params sendRequest (w : World) (f : FeatureRef) (arg : nat)
  (o : Obj) (direction : string) :
  heap w !! arg = Some o ->
  isTextDocumentPositionParams o = true ->
  let w' := (types sendRequest (Some f) arg direction w).1 in
  trace w' = trace w ++ [Request f TypeHierarchyRequest_type (overwritten o direction)]
  /\ heap w' !! arg = Some (overwritten o direction)
  /\ fresh w' = fresh w.
Proof.
  intros Harg Hshape. unfold types, toTextDocumentPositionParams.
  rewrite Harg, Hshape. unfold write, get. rewrite Harg. cbn [heap set_heap].
  rewrite lookup_insert_eq. cbn [heap set_heap].
  rewrite lookup_insert_eq.
  destruct (sendRequest f _ _); cbn; rewrite lookup_insert_eq; repeat split; reflexivity.
Qed.

(** C3, as the code has it.  For an argument that already has the
    position-request shape, with a feature mapped for the language, no
    new object is made: the argument object itself is the request.
    [superTypes] assigns ["parents"] to its [direction] and 1 to its
    [resolve], [subTypes] assigns ["children"] and 1, whatever these
    properties held before; every other property, [position] and
    [textDocument] among them, is left as it was. *)
Theorem position_params_passed_with_side sendRequest (w : World) (languageId : string)
  (f : FeatureRef) (arg : nat) (o : Obj) :
  features w !! languageId = Some f ->
  heap w !! arg = Some o ->
  isTextDocumentPositionParams o = true ->
  let up := (superTypes sendRequest languageId arg w).1 in
  let down := (subTypes sendRequest languageId arg w).1 in
  trace up = trace w ++ [Request f TypeHierarchyRequest_type (overwritten o "parents")]
  /\ heap up !! arg = Some (overwritten o "parents")
  /\ fresh up = fresh w
  /\ trace down = trace w ++ [Request f TypeHierarchyRequest_type (overwritten o "children")]
  /\ heap down !! arg = Some (overwritten o "children")
  /\ fresh down = fresh w
  /\ (forall direction,
        get_prop "direction" (overwritten o direction) = VStr direction
        /\ get_prop "resolve" (overwritten o direction) = VNum 1
        /\ forall k, k <> "direction" -> k <> "resolve" ->
             get_prop k (overwritten o direction) = get_prop k o
             /\ has_prop k (overwritten o direction) = has_prop k o).
Proof.
  intros Hf Harg Hshape. cbn zeta. unfold superTypes, subTypes. rewrite Hf.
  destruct (types_of_position_params sendRequest w f arg o "parents" Harg Hshape)
    as (Hp1 & Hp2 & Hp3).
  destruct (types_of_position_params sendRequest w f arg o "children" Harg Hshape)
    as (Hc1 & Hc2 & Hc3).
  repeat (split; [assumption|]).
  intros direction. unfold overwritten. split; [|split].
  - rewrite get_set_prop_ne by discriminate. apply get_set_prop_eq.
  - apply get_set_prop_eq.
  - intros k Hd Hr.
    rewrite !get_set_prop_ne, !has_set_prop_ne by assumption. split; reflexivity.
Qed.

Lemma position_params_passed_with_side_witness :
  heap (superTypes Scenes.silent_client "go" 10 Scenes.go_served).1 !! 10
  = Some (overwritten Scenes.both_params "parents").
Proof.
  apply (position_params_passed_with_side Scenes.silent_client Scenes.go_served "go" 0 10
           Scenes.both_params); vm_compute; reflexivity.
Defined.

(** C3, as the specification words it, fails: a position parameter that
    asks for two levels in both directions is sent, and left in the
    caller's hands, asking for one level of parents. *)
Lemma position_params_unchanged_counterexample :
  isTextDocumentPositionParams Scenes.both_params = true
  /\ features Scenes.go_served !! "go" = Some 0
  /\ heap Scenes.go_served !! 10 = Some Scenes.both_params
  /\ get_prop "resolve" Scenes.both_params = VNum 2
  /\ get_prop "direction" Scenes.both_params = VStr "both"
  /\ exists sent,
       trace (superTypes Scenes.silent_client "go" 10 Scenes.go_served).1
       = trace Scenes.go_served ++ [Request 0 TypeHierarchyRequest_type sent]
       /\ heap (superTypes Scenes.silent_client "go" 10 Scenes.go_served).1 !! 10 = Some sent
       /\ get_prop "resolve" sent = VNum 1
       /\ get_prop "direction" sent = VStr "parents"
       /\ sent <> Scenes.both_params.
Proof.
  repeat (split; [vm_compute; reflexivity|]).
  exists (overwritten Scenes.both_params "parents").
  repeat (split; [vm_compute; reflexivity|]).
  vm_compute. discriminate.
Qed.

(** C9. [get] answers with the item the server returned, and with
    [undefined] when the server returned [null]; and when no feature is
    mapped for the language, [superTypes] and [subTypes] resolve to
    [undefined], whatever the argument, and nothing else happens. *)
Theorem absence_is_not_an_error sendRequest (w : World) (f : FeatureRef)
  (params : nat) (o : Obj) (languageId : string) (arg : nat) :
  (heap w !! params = Some o ->
   forall item, sendRequest f TypeHierarchyRequest_type o = Return (VObj item) ->
     (get sendRequest f params w).2 = Return (VObj item))
  /\ (heap w !! params = Some o ->
      sendRequest f TypeHierarchyRequest_type o = Return VNull ->
      (get sendRequest f params w).2 = Return VUndefined)
  /\ (features w !! languageId = None ->
      superTypes sendRequest languageId arg w = (w, Return VUndefined)
      /\ subTypes sendRequest languageId arg w = (w, Return VUndefined)).
Proof.
  split; [|split].
  - intros Hp item Hitem. unfold get. rewrite Hp, Hitem. reflexivity.
  - intros Hp Hnull. unfold get. rewrite Hp, Hnull. reflexivity.
  - intros Hnone. unfold superTypes, subTypes. rewrite Hnone. split; reflexivity.
Qed.

Lemma absence_is_not_an_error_witness :
  (get Scenes.silent_client 0 10 Scenes.go_served).2 = Return VUndefined
  /\ superTypes Scenes.silent_client "java" 10 Scenes.go_served
     = (Scenes.go_served, Return VUndefined).
Proof.
  split.
  - apply (absence_is_not_an_error Scenes.silent_client Scenes.go_served 0 10
             Scenes.both_params "java" 10); vm_compute; reflexivity.
  - apply (absence_is_not_an_error Scenes.silent_client Scenes.go_served 0 10
             Scenes.both_params "java" 10). vm_compute. reflexivity.
Defined.

(** ** How the primitive steps act on the store *)

Lemma instances_update_feature (f x : FeatureRef) (g : Feature -> Feature) (w : World) :
  instances (update_feature f g w) !! x
  = if decide (x = f) then g <$> instances w !! x else instances w !! x.
Proof.
  unfold update_feature. destruct (instances w !! f) as [ft|] eqn:E; cbn.
  - destruct (decide (x = f)) as [->|Hne].
    + rewrite lookup_insert_eq, E. reflexivity.
    + rewrite lookup_insert_ne by congruence. reflexivity.
  - destruct (decide (x = f)) as [->|Hne]; [rewrite E|]; reflexivity.
Qed.

Lemma update_feature_frame (f : FeatureRef) (g : Feature -> Feature) (w : World) :
  features (update_feature f g w) = features w
  /\ trace (update_feature f g w) = trace w
  /\ fresh (update_feature f g w) = fresh w
  /\ heap (update_feature f g w) = heap w
  /\ collections (update_feature f g w) = collections w.
Proof. unfold update_feature. destruct (instances w !! f); repeat split; reflexivity. Qed.

(** What a listener may read of a feature: whether a stream is open and
    which registrations are kept. *)
Lemma is_open_update_emitter (f x : FeatureRef) (ev ev' : LifecycleEvent)
  (g : Emitter -> Emitter) (w : World) :
  (forall e, disposed (g e) = disposed e) ->
  is_open x ev (update_feature f (with_emitter ev' g) w) = is_open x ev w.
Proof.
  intros Hg. unfold is_open. rewrite instances_update_feature.
  destruct (decide (x = f)) as [->|]; [|reflexivity].
  destruct (instances w !! f) as [ft|]; [|reflexivity].
  destruct ev, ev'; cbn; rewrite ?Hg; reflexivity.
Qed.

Lemma providers_update_emitter (f x : FeatureRef) (ev : LifecycleEvent)
  (g : Emitter -> Emitter) (w : World) :
  providers_of x (update_feature f (with_emitter ev g) w) = providers_of x w.
Proof.
  unfold providers_of. rewrite instances_update_feature.
  destruct (decide (x = f)) as [->|]; [|reflexivity].
  destruct (instances w !! f) as [ft|]; [|reflexivity].
  destruct ev; reflexivity.
Qed.

Lemma exists_update_feature (f x : FeatureRef) (g : Feature -> Feature) (w : World) :
  is_Some (instances (update_feature f g w) !! x) <-> is_Some (instances w !! x).
Proof.
  rewrite instances_update_feature. destruct (decide (x = f)); [|reflexivity].
  destruct (instances w !! x); cbn; split; intros [? H]; try discriminate; eauto.
Qed.

Lemma evolves_refl (w : World) : evolves w w.
Proof.
  split; try reflexivity. exists []. split; [now rewrite app_nil_r | constructor].
Qed.

Lemma evolves_trans (w1 w2 w3 : World) : evolves w1 w2 -> evolves w2 w3 -> evolves w1 w3.
Proof.
  intros [F1 H1 X1 (t1 & T1 & K1)] [F2 H2 X2 (t2 & T2 & K2)]. split.
  - congruence.
  - congruence.
  - intros x. rewrite X2. apply X1.
  - exists (t1 ++ t2). split.
    + rewrite T2, T1, app_assoc. reflexivity.
    + apply Forall_app. split; assumption.
Qed.

Lemma evolves_log (e : Event) (w : World) : step_kind e -> evolves w (log e w).
Proof.
  intros He. split; try reflexivity. exists [e]. split; [reflexivity|].
  constructor; [exact He | constructor].
Qed.

Lemma evolves_set_features (m : gmap string FeatureRef) (w : World) :
  evolves w (set_features m w).
Proof.
  split; try reflexivity. exists []. split; [cbn; now rewrite app_nil_r | constructor].
Qed.

Lemma evolves_set_collections (m : gmap nat (list Disposable)) (w : World) :
  evolves w (set_collections m w).
Proof.
  split; try reflexivity. exists []. split; [cbn; now rewrite app_nil_r | constructor].
Qed.

Lemma evolves_update_feature (f : FeatureRef) (g : Feature -> Feature) (w : World) :
  evolves w (update_feature f g w).
Proof.
  destruct (update_feature_frame f g w) as (_ & Ht & Hf & Hh & _). split.
  - exact Hf.
  - exact Hh.
  - intros x. apply exists_update_feature.
  - exists []. split; [now rewrite Ht, app_nil_r | constructor].
Qed.

Lemma evolves_foldl {A} (step : World -> A -> World) (l : list A) (w : World) :
  (forall w' a, evolves w' (step w' a)) -> evolves w (foldl step w l).
Proof.
  intros Hstep. revert w. induction l as [|a l IH]; intros w; cbn.
  - apply evolves_refl.
  - eapply evolves_trans; [apply Hstep | apply IH].
Qed.

Lemma evolves_dispose_collection (c : nat) (w : World) : evolves w (dispose_collection c w).
Proof.
  unfold dispose_collection. destruct (collections w !! c) as [ds|]; [|apply evolves_refl].
  eapply evolves_trans; [|apply evolves_set_collections].
  apply evolves_foldl. intros w' [f ev s]. apply evolves_update_feature.
Qed.

Lemma evolves_base_dispose (f : FeatureRef) (w : World) : evolves w (base_dispose f w).
Proof.
  unfold base_dispose. eapply evolves_trans; [|apply evolves_update_feature].
  apply evolves_foldl. intros w' _. unfold dispose_toDispose.
  eapply evolves_trans; apply evolves_update_feature.
Qed.

Section EvolvesDelivery.

Variable rec : FeatureRef -> World -> World * Completion unit.
Hypothesis rec_evolves : forall g w, evolves w (rec g w).1.

Lemma evolves_invoke (f : FeatureRef) (ev : LifecycleEvent) (cb : Callback) (w : World) :
  evolves w (invoke rec f ev cb w).1.
Proof.
  destruct cb as [l nf | l c | tag]; cbn.
  - unfold on_initialized. destruct (features w !! l) as [old|].
    + pose proof (rec_evolves old w) as Hr. destruct (rec old w) as [w1 [[]|e]]; cbn in *.
      * eapply evolves_trans; [exact Hr|].
        eapply evolves_trans; [apply evolves_set_features | now apply evolves_log].
      * exact Hr.
    + cbn. eapply evolves_trans; [apply evolves_set_features | now apply evolves_log].
  - unfold on_disposed. destruct (features w !! l) as [mapped|].
    + pose proof (rec_evolves mapped w) as Hr.
      destruct (rec mapped w) as [w1 [[]|e]]; cbn in *.
      * eapply evolves_trans; [exact Hr|].
        eapply evolves_trans; [apply evolves_set_features|].
        eapply evolves_trans; [apply (evolves_log (MapDelete l)); exact I
                             | apply evolves_dispose_collection].
      * exact Hr.
    + cbn. apply evolves_dispose_collection.
  - now apply evolves_log.
Qed.

Lemma evolves_deliver (f : FeatureRef) (ev : LifecycleEvent)
  (cbs : list (nat * Callback)) (w : World) :
  evolves w (deliver rec f ev cbs w).
Proof.
  unfold deliver. apply evolves_foldl. intros w' cb. apply evolves_invoke.
Qed.

Lemma evolves_fire_disposed (f : FeatureRef) (w : World) :
  evolves w (fire rec f Disposed w).
Proof.
  unfold fire. destruct (instances w !! f) as [ft|]; [|apply evolves_refl].
  destruct (disposed _); [apply evolves_refl|].
  eapply evolves_trans; [|apply evolves_deliver]. now apply evolves_log.
Qed.

End EvolvesDelivery.

Lemma evolves_dispose (depth : nat) (f : FeatureRef) (w : World) :
  evolves w (dispose depth f w).1.
Proof.
  revert f w. induction depth as [|d IH]; intros f w; cbn.
  - apply evolves_refl.
  - eapply evolves_trans; [apply evolves_fire_disposed; exact IH | apply evolves_base_dispose].
Qed.


(** ** Negotiation *)

Lemma evolves_fire (rec : FeatureRef -> World -> World * Completion unit)
  (f : FeatureRef) (ev : LifecycleEvent) (w : World) :
  (forall g w0, evolves w0 (rec g w0).1) ->
  is_open f ev w = true ->
  evolves (log (Fired f ev) w) (fire rec f ev w).
Proof.
  intros Hrec Hopen. unfold fire, is_open in *.
  destruct (instances w !! f) as [ft|]; [|discriminate].
  destruct (disposed (emitter_of ev ft)); [discriminate|].
  apply evolves_deliver. exact Hrec.
Qed.

Lemma merged_options_of_flag (capabilities : Obj) (documentSelector : JsVal) (b : bool) :
  get_prop "typeHierarchy" capabilities = VBool b ->
  merged_options capabilities documentSelector = [("documentSelector", documentSelector)].
Proof. intros H. unfold merged_options. rewrite H. reflexivity. Qed.

Lemma initialize_supported (depth : nat) (f : FeatureRef) (capabilities : Obj)
  (documentSelector : JsVal) (w : World) :
  truthy documentSelector = true ->
  truthy (get_prop "typeHierarchy" capabilities) = true ->
  is_open f Initialized w = true ->
  truthy (get_prop "documentSelector" (merged_options capabilities documentSelector)) = true ->
  let w1 := fire (dispose depth) f Initialized w in
  let w' := initialize depth f capabilities documentSelector w in
  evolves (log (Fired f Initialized) w) w1
  /\ trace w' = trace w1 ++ [Registered f (fresh w) (merged_options capabilities documentSelector)]
  /\ fresh w' = S (fresh w)
  /\ In (fresh w) (providers_of f w').
Proof.
  intros Hsel Hcap Hopen Hmerged. cbn zeta.
  pose proof (evolves_fire (dispose depth) f Initialized w
                (evolves_dispose depth) Hopen) as Hev.
  split; [exact Hev|].
  unfold initialize. rewrite Hsel, Hcap. cbn [negb].
  fold (merged_options capabilities documentSelector).
  unfold base_register. rewrite Hmerged.
  destruct Hev as [Hfresh _ Hex _]. cbn in Hfresh.
  set (w1 := fire (dispose depth) f Initialized w) in *.
  assert (Hsome : is_Some (instances w1 !! f)).
  { apply Hex. cbn. unfold is_open in Hopen.
    destruct (instances w !! f); [eauto | discriminate]. }
  destruct Hsome as [ft Hft].
  split; [|split].
  - cbn. destruct (update_feature_frame f
             (with_providers (fun ps => if decide (fresh w1 ∈ ps) then ps else ps ++ [fresh w1]))
             (bump 1 w1)) as (_ & Ht & _).
    rewrite Ht, Hfresh. reflexivity.
  - cbn. destruct (update_feature_frame f
             (with_providers (fun ps => if decide (fresh w1 ∈ ps) then ps else ps ++ [fresh w1]))
             (bump 1 w1)) as (_ & _ & Hf & _).
    rewrite Hf. cbn. rewrite Hfresh. lia.
  - unfold providers_of. cbn. rewrite instances_update_feature.
    destruct (decide (f = f)) as [_|]; [|congruence].
    cbn. rewrite Hft. cbn. rewrite Hfresh.
    destruct (decide (fresh w ∈ _providers ft)) as [Hin|Hnin].
    + apply list_elem_of_In. exact Hin.
    + apply in_or_app. right. left. reflexivity.
Qed.

(** C5, as the code has it.  When the document selector is present and
    the capability supported (and the merged options keep a document
    selector, as they do whenever the capability is a boolean), a
    feature whose Initialized stream is open signals Initialized first;
    the subscribers are served; only then is a fresh identifier taken,
    the selector merged into the server's options, and the registration
    made.  The registration is the last thing that happens, and nothing
    in between is a registration or another Initialized. *)
Theorem initialized_precedes_registration (depth : nat) (f : FeatureRef)
  (capabilities : Obj) (documentSelector : JsVal) (w : World) :
  truthy documentSelector = true ->
  truthy (get_prop "typeHierarchy" capabilities) = true ->
  is_open f Initialized w = true ->
  truthy (get_prop "documentSelector" (merged_options capabilities documentSelector)) = true ->
  exists t,
    trace (initialize depth f capabilities documentSelector w)
    = trace w ++ [Fired f Initialized] ++ t
      ++ [Registered f (fresh w) (merged_options capabilities documentSelector)]
    /\ Forall step_kind t.
Proof.
  intros Hsel Hcap Hopen Hmerged.
  destruct (initialize_supported depth f capabilities documentSelector w
              Hsel Hcap Hopen Hmerged) as ([_ _ _ (t & Ht & Hk)] & Htr & _).
  exists t. split; [|exact Hk].
  rewrite Htr, Ht. cbn. rewrite <- !app_assoc. reflexivity.
Qed.

Lemma initialized_precedes_registration_witness :
  exists t,
    trace (initialize 8 0 Scenes.supporting Scenes.go_selector Scenes.go_created)
    = trace Scenes.go_created ++ [Fired 0 Initialized] ++ t
      ++ [Registered 0 (fresh Scenes.go_created)
            (merged_options Scenes.supporting Scenes.go_selector)]
    /\ Forall step_kind t.
Proof.
  apply (initialized_precedes_registration 8 0 Scenes.supporting Scenes.go_selector
           Scenes.go_created); vm_compute; reflexivity.
Defined.

(** C5, as the specification words it, fails: for a newly created
    feature the history of a successful negotiation starts with the
    Initialized event and ends with the registration. *)
Lemma registration_precedes_initialized_counterexample :
  let history := trace (initialize 8 0 Scenes.supporting Scenes.go_selector Scenes.go_created) in
  history = [Fired 0 Initialized; MapSet "go" 0;
             Registered 0 4 [("documentSelector", VArr [VStr "go"])]]
  /\ history !! 0 = Some (Fired 0 Initialized)
  /\ history !! 2 = Some (Registered 0 4 [("documentSelector", VArr [VStr "go"])])
  /\ ~ (2 < 0).
Proof. cbn zeta. repeat split; try (vm_compute; reflexivity). lia. Qed.

Lemma fired_count_app f ev t1 t2 :
  fired_count f ev (t1 ++ t2) = fired_count f ev t1 + fired_count f ev t2.
Proof. unfold fired_count. now rewrite List.filter_app, length_app. Qed.

Lemma registered_count_app f t1 t2 :
  registered_count f (t1 ++ t2) = registered_count f t1 + registered_count f t2.
Proof. unfold registered_count. now rewrite List.filter_app, length_app. Qed.

Lemma step_kind_counts (f : FeatureRef) (t : list Event) :
  Forall step_kind t ->
  fired_count f Initialized t = 0 /\ registered_count f t = 0.
Proof.
  induction 1 as [|e t He _ [IH1 IH2]]; [split; reflexivity|].
  unfold fired_count, registered_count in *. cbn.
  destruct e as [g [] | | | | |]; cbn in He; try contradiction; cbn; tauto.
Qed.

(** C4, as the code has it.  [initialize] keeps no record of having
    run: every call made with a document selector and a supported
    capability, while the feature's Initialized stream is open, signals
    Initialized once more and makes one more registration, under an
    identifier that had not been handed out before. *)
Theorem initialize_repeats (depth : nat) (f : FeatureRef)
  (capabilities : Obj) (documentSelector : JsVal) (w : World) :
  truthy documentSelector = true ->
  truthy (get_prop "typeHierarchy" capabilities) = true ->
  is_open f Initialized w = true ->
  truthy (get_prop "documentSelector" (merged_options capabilities documentSelector)) = true ->
  let w' := initialize depth f capabilities documentSelector w in
  fired_count f Initialized (trace w') = S (fired_count f Initialized (trace w))
  /\ registered_count f (trace w') = S (registered_count f (trace w))
  /\ In (fresh w) (providers_of f w')
  /\ fresh w' = S (fresh w).
Proof.
  intros Hsel Hcap Hopen Hmerged.
  destruct (initialize_supported depth f capabilities documentSelector w
              Hsel Hcap Hopen Hmerged) as ([_ _ _ (t & Ht & Hk)] & Htr & Hfresh & Hin).
  cbn zeta. cbn in Ht.
  destruct (step_kind_counts f t Hk) as [Hf0 Hr0].
  repeat split; try assumption.
  - rewrite Htr, Ht, !fired_count_app, Hf0.
    unfold fired_count at 2 3. cbn. rewrite Nat.eqb_refl. cbn. lia.
  - rewrite Htr, Ht, !registered_count_app, Hr0.
    unfold registered_count at 2 3. cbn. rewrite Nat.eqb_refl. cbn. lia.
Qed.

Lemma initialize_repeats_witness :
  let once := initialize 8 0 Scenes.supporting Scenes.go_selector Scenes.watched in
  let twice := initialize 8 0 Scenes.supporting Scenes.go_selector once in
  fired_count 0 Initialized (trace twice) = S (fired_count 0 Initialized (trace once))
  /\ registered_count 0 (trace twice) = S (registered_count 0 (trace once))
  /\ In (fresh once) (providers_of 0 twice)
  /\ fresh twice = S (fresh once).
Proof.
  cbn zeta.
  apply (initialize_repeats 8 0 Scenes.supporting Scenes.go_selector
           (initialize 8 0 Scenes.supporting Scenes.go_selector Scenes.watched));
    vm_compute; reflexivity.
Defined.

(** C4, as the specification words it, fails: a second [initialize]
    with the same capabilities and selector signals Initialized again
    (the observer is told twice) and registers again. *)
Lemma second_initialize_counterexample :
  let once := initialize 8 0 Scenes.supporting Scenes.go_selector Scenes.watched in
  let twice := initialize 8 0 Scenes.supporting Scenes.go_selector once in
  trace once
  = [Fired 0 Initialized; Observed 1 0 Initialized;
     Registered 0 3 [("documentSelector", VArr [VStr "go"])]]
  /\ trace twice
     = trace once
       ++ [Fired 0 Initialized; Observed 1 0 Initialized;
           Registered 0 4 [("documentSelector", VArr [VStr "go"])]]
  /\ fired_count 0 Initialized (trace twice) = 2
  /\ registered_count 0 (trace twice) = 2
  /\ providers_of 0 twice = [3; 4].
Proof. cbn zeta. repeat split; vm_compute; reflexivity. Qed.

(** ** Disposal *)

Lemma view_update_emitter (f x : FeatureRef) (ev : LifecycleEvent)
  (g : Emitter -> Emitter) (w : World) :
  (forall e, disposed (g e) = disposed e) ->
  view x (update_feature f (with_emitter ev g) w) = view x w.
Proof.
  intros Hg. unfold view.
  rewrite !is_open_update_emitter, providers_update_emitter by exact Hg. reflexivity.
Qed.

Lemma view_dispose_collection (x : FeatureRef) (c : nat) (w : World) :
  view x (dispose_collection c w) = view x w.
Proof.
  unfold dispose_collection. destruct (collections w !! c) as [ds|]; [|reflexivity].
  transitivity (view x (foldl (fun w' d => dispose_disposable d w') w (rev ds)));
    [reflexivity|].
  generalize (rev ds) as l. intros l. revert w.
  induction l as [|[f ev s] l IH]; intros w; cbn; [reflexivity|].
  rewrite IH. apply view_update_emitter. reflexivity.
Qed.

Lemma view_dispose_toDispose (f x : FeatureRef) (w : World) :
  view x (dispose_toDispose f w)
  = if decide (x = f) then (false, false, providers_of x w) else view x w.
Proof.
  unfold view, dispose_toDispose, is_open, providers_of.
  rewrite !instances_update_feature.
  destruct (decide (x = f)) as [->|]; [|reflexivity].
  destruct (instances w !! f) as [ft|]; reflexivity.
Qed.

Lemma view_base_dispose (f x : FeatureRef) (w : World) :
  view x (base_dispose f w)
  = if decide (x = f) then
      match providers_of f w with
      | [] => (is_open f Initialized w, is_open f Disposed w, [])
      | _ :: _ => (false, false, [])
      end
    else view x w.
Proof.
  unfold base_dispose.
  set (w1 := foldl (fun w' _ => dispose_toDispose f w') w (providers_of f w)).
  assert (H1 : view x w1
               = if decide (x = f) then
                   match providers_of f w with
                   | [] => view x w
                   | _ :: _ => (false, false, providers_of x w)
                   end
                 else view x w).
  { subst w1. generalize (providers_of f w) as ps. intros ps.
    destruct (decide (x = f)) as [->|Hne].
    - destruct ps as [|p ps]; [reflexivity|]. cbn.
      assert (Hstep : forall (l : list nat) w0, view f w0 = (false, false, providers_of f w)
                -> view f (foldl (fun w' _ => dispose_toDispose f w') w0 l)
                   = (false, false, providers_of f w)).
      { induction l as [|a l IH]; intros w0 H0; cbn; [exact H0|].
        apply IH. rewrite view_dispose_toDispose.
        destruct (decide (f = f)); [|congruence].
        unfold view in H0. congruence. }
      apply Hstep. rewrite view_dispose_toDispose.
      destruct (decide (f = f)); [reflexivity | congruence].
    - revert w. induction ps as [|p ps IH]; intros w; cbn; [reflexivity|].
      rewrite IH, view_dispose_toDispose.
      destruct (decide (x = f)); [congruence | reflexivity]. }
  unfold view in *. unfold is_open, providers_of in *.
  rewrite instances_update_feature.
  destruct (decide (x = f)) as [->|Hne]; [|exact H1].
  destruct (instances w1 !! f) as [ft1|] eqn:E1;
    destruct (instances w !! f) as [ft|] eqn:E; cbn in *.
  - destruct (_providers ft); congruence.
  - congruence.
  - destruct (_providers ft); congruence.
  - reflexivity.
Qed.

(** A property of one feature's view that [super.dispose()] of that
    feature keeps is kept by every call of [dispose], whatever the
    listeners do. *)
Section ViewInvariant.

Variable x : FeatureRef.
Variable P : bool * bool * list nat -> Prop.
Hypothesis P_base : forall w, P (view x w) -> P (view x (base_dispose x w)).

Lemma view_kept_base (f : FeatureRef) (w : World) :
  P (view x w) -> P (view x (base_dispose f w)).
Proof.
  intros H. destruct (decide (x = f)) as [<-|Hne]; [now apply P_base|].
  rewrite view_base_dispose. destruct (decide (x = f)); [congruence | exact H].
Qed.

Section Delivery.

Variable rec : FeatureRef -> World -> World * Completion unit.
Hypothesis rec_kept : forall g w, P (view x w) -> P (view x (rec g w).1).

Lemma view_kept_invoke (f : FeatureRef) (ev : LifecycleEvent) (cb : Callback) (w : World) :
  P (view x w) -> P (view x (invoke rec f ev cb w).1).
Proof.
  intros H. destruct cb as [l nf | l c | tag]; cbn.
  - unfold on_initialized. destruct (features w !! l) as [old|]; [|exact H].
    pose proof (rec_kept old w H) as Hr. destruct (rec old w) as [w1 [[]|e]]; exact Hr.
  - unfold on_disposed. destruct (features w !! l) as [mapped|].
    + pose proof (rec_kept mapped w H) as Hr.
      destruct (rec mapped w) as [w1 [[]|e]]; cbn in *; [|exact Hr].
      rewrite view_dispose_collection. exact Hr.
    + cbn. rewrite view_dispose_collection. exact H.
  - exact H.
Qed.

Lemma view_kept_deliver (f : FeatureRef) (ev : LifecycleEvent)
  (cbs : list (nat * Callback)) (w : World) :
  P (view x w) -> P (view x (deliver rec f ev cbs w)).
Proof.
  unfold deliver. revert w. induction cbs as [|cb cbs IH]; intros w H; cbn; [exact H|].
  apply IH. apply view_kept_invoke. exact H.
Qed.

Lemma view_kept_fire (f : FeatureRef) (ev : LifecycleEvent) (w : World) :
  P (view x w) -> P (view x (fire rec f ev w)).
Proof.
  intros H. unfold fire. destruct (instances w !! f) as [ft|]; [|exact H].
  destruct (disposed _); [exact H|]. apply view_kept_deliver. exact H.
Qed.

End Delivery.

Lemma view_kept_dispose (depth : nat) (f : FeatureRef) (w : World) :
  P (view x w) -> P (view x (dispose depth f w).1).
Proof.
  revert f w. induction depth as [|d IH]; intros f w H; cbn; [exact H|].
  apply view_kept_base. apply view_kept_fire; [exact IH | exact H].
Qed.

End ViewInvariant.

Lemma fire_closed (rec : FeatureRef -> World -> World * Completion unit)
  (f : FeatureRef) (ev : LifecycleEvent) (w : World) :
  is_open f ev w = false -> fire rec f ev w = w.
Proof.
  unfold is_open, fire. destruct (instances w !! f) as [ft|]; [|reflexivity].
  destruct (disposed _); [reflexivity | discriminate].
Qed.

Lemma base_dispose_nothing_kept (f : FeatureRef) (w : World) :
  providers_of f w = [] -> base_dispose f w = w.
Proof.
  intros H. unfold base_dispose. rewrite H. cbn.
  unfold update_feature, providers_of in *.
  destruct (instances w !! f) as [ft|] eqn:E; [|reflexivity].
  destruct ft as [l oi od ps]. cbn in H. subst ps.
  unfold with_providers. cbn. rewrite insert_id by exact E.
  destruct w; reflexivity.
Qed.

Lemma settled_base (x : FeatureRef) (w : World) :
  settled (view x w) -> settled (view x (base_dispose x w)).
Proof.
  intros H. rewrite view_base_dispose. destruct (decide (x = x)); [|congruence].
  unfold settled, view in *. cbn in *.
  destruct (providers_of x w); cbn; [|tauto].
  destruct H as [H|H]; [congruence | tauto].
Qed.

Lemma unregistered_base (x : FeatureRef) (w : World) :
  unregistered (view x w) -> unregistered (view x (base_dispose x w)).
Proof.
  intros [H1 H2]. rewrite view_base_dispose. destruct (decide (x = x)); [|congruence].
  unfold unregistered, view in *. cbn in *. rewrite H1. cbn. tauto.
Qed.

(** ** Superseding a feature *)

Lemma service_frame_update_feature (f : FeatureRef) (g : Feature -> Feature) (w : World) :
  features (update_feature f g w) = features w /\ trace (update_feature f g w) = trace w.
Proof. destruct (update_feature_frame f g w) as (H1 & H2 & _). split; assumption. Qed.

Lemma service_frame_dispose_collection (c : nat) (w : World) :
  features (dispose_collection c w) = features w
  /\ trace (dispose_collection c w) = trace w.
Proof.
  unfold dispose_collection. destruct (collections w !! c) as [ds|]; [|split; reflexivity].
  cbn. generalize (rev ds) as l. intros l. revert w.
  induction l as [|[f ev s] l IH]; intros w; cbn; [split; reflexivity|].
  destruct (IH (update_feature f (with_emitter ev (remove_callback s)) w)) as [H1 H2].
  destruct (service_frame_update_feature f (with_emitter ev (remove_callback s)) w)
    as [H3 H4].
  split; congruence.
Qed.

Lemma service_frame_base_dispose (f : FeatureRef) (w : World) :
  features (base_dispose f w) = features w /\ trace (base_dispose f w) = trace w.
Proof.
  unfold base_dispose.
  assert (Hfold : forall (ps : list nat) w0,
            features (foldl (fun w' _ => dispose_toDispose f w') w0 ps) = features w0
            /\ trace (foldl (fun w' _ => dispose_toDispose f w') w0 ps) = trace w0).
  { induction ps as [|p ps IH]; intros w0; cbn; [split; reflexivity|].
    destruct (IH (dispose_toDispose f w0)) as [H3 H4]. rewrite H3, H4.
    unfold dispose_toDispose.
    destruct (service_frame_update_feature f (with_emitter Initialized close_emitter)
                (update_feature f (with_emitter Disposed close_emitter) w0)) as [H5 H6].
    destruct (service_frame_update_feature f (with_emitter Disposed close_emitter) w0)
      as [H7 H8].
    split; congruence. }
  destruct (service_frame_update_feature f (with_providers (fun _ => []))
              (foldl (fun w' _ => dispose_toDispose f w') w (providers_of f w))) as [H1 H2].
  destruct (Hfold (providers_of f w) w) as [H3 H4].
  split; congruence.
Qed.

Lemma is_open_base_dispose_other (f x : FeatureRef) (ev : LifecycleEvent) (w : World) :
  x <> f -> is_open x ev (base_dispose f w) = is_open x ev w.
Proof.
  intros Hne. pose proof (view_base_dispose f x w) as Hv.
  destruct (decide (x = f)); [congruence|].
  unfold view in Hv. destruct ev; congruence.
Qed.

Lemma is_open_dispose_collection (x : FeatureRef) (ev : LifecycleEvent) (c : nat) (w : World) :
  is_open x ev (dispose_collection c w) = is_open x ev w.
Proof.
  pose proof (view_dispose_collection x c w) as Hv.
  unfold view in Hv. destruct ev; congruence.
Qed.

Section Supersede.

Variable L : string.
Variable A : FeatureRef.
Variable t0 : list Event.

Local Abbreviation preceded := (Observations.preceded L A).
Local Abbreviation signalled := (Observations.signalled L A t0).
Local Abbreviation pending := (Observations.pending L A t0).
Local Abbreviation orderly := (Observations.orderly L A t0).

Lemma preceded_snoc_other (t : list Event) (e : Event) :
  preceded t -> (forall x, e <> MapSet L x) -> preceded (t ++ [e]).
Proof.
  intros Hp He i x Hi.
  destruct (decide (i < length t)) as [Hlt|Hge].
  - rewrite lookup_app_l in Hi by exact Hlt.
    destruct (Hp i x Hi) as (j & Hj & Hjt). exists j. split; [exact Hj|].
    rewrite lookup_app_l by lia. exact Hjt.
  - rewrite lookup_app_r in Hi by lia.
    destruct (i - length t) as [|k] eqn:Ek; cbn in Hi; [|discriminate].
    injection Hi as Hi. exfalso. exact (He x Hi).
Qed.

Lemma preceded_app_signalled (t t' : list Event) :
  preceded t -> In (Fired A Disposed) t -> preceded (t ++ t').
Proof.
  intros Hp Hin i x Hi.
  destruct (decide (i < length t)) as [Hlt|Hge].
  - rewrite lookup_app_l in Hi by exact Hlt.
    destruct (Hp i x Hi) as (j & Hj & Hjt). exists j. split; [exact Hj|].
    rewrite lookup_app_l by lia. exact Hjt.
  - apply list_elem_of_In, list_elem_of_lookup in Hin. destruct Hin as [j Hj].
    pose proof (lookup_lt_Some _ _ _ Hj) as Hlen.
    exists j. split; [lia|]. rewrite lookup_app_l by exact Hlen. exact Hj.
Qed.

Lemma signalled_evolves (w w' : World) : signalled w -> evolves w w' -> signalled w'.
Proof.
  intros (t & Ht & Hp & Hin) [_ _ _ (t' & Ht' & _)].
  exists (t ++ t'). split; [|split].
  - rewrite Ht', Ht, app_assoc. reflexivity.
  - apply preceded_app_signalled; assumption.
  - apply in_or_app. left. exact Hin.
Qed.

Lemma pending_log_fired (w : World) :
  pending w -> signalled (log (Fired A Disposed) w).
Proof.
  intros ((t & Ht & Hp) & _). exists (t ++ [Fired A Disposed]). split; [|split].
  - cbn. rewrite Ht, app_assoc. reflexivity.
  - apply preceded_snoc_other; [exact Hp | discriminate].
  - apply in_or_app. right. left. reflexivity.
Qed.

Lemma pending_log_other (w : World) (e : Event) :
  pending w -> (forall x, e <> MapSet L x) -> pending (log e w).
Proof.
  intros ((t & Ht & Hp) & Hm & Ho) He. split; [|split; assumption].
  exists (t ++ [e]). split.
  - cbn. rewrite Ht, app_assoc. reflexivity.
  - apply preceded_snoc_other; assumption.
Qed.

Lemma pending_set_features_other (w : World) (m : gmap string FeatureRef) :
  pending w -> m !! L = features w !! L -> pending (set_features m w).
Proof.
  intros (Ht & Hm & Ho) Hsame. split; [exact Ht|]. split; [|exact Ho].
  cbn. rewrite Hsame. exact Hm.
Qed.

Lemma pending_dispose_collection (w : World) (c : nat) :
  pending w -> pending (dispose_collection c w).
Proof.
  intros (Ht & Hm & Ho). destruct (service_frame_dispose_collection c w) as [Hf Htr].
  split; [rewrite Htr; exact Ht|]. split; [rewrite Hf; exact Hm|].
  rewrite is_open_dispose_collection. exact Ho.
Qed.

Lemma pending_base_dispose_other (w : World) (f : FeatureRef) :
  pending w -> f <> A -> pending (base_dispose f w).
Proof.
  intros (Ht & Hm & Ho) Hne. destruct (service_frame_base_dispose f w) as [Hf Htr].
  split; [rewrite Htr; exact Ht|]. split; [rewrite Hf; exact Hm|].
  rewrite is_open_base_dispose_other by congruence. exact Ho.
Qed.

(** The disposal of [A] itself, with room on the stack, makes it signal. *)
Lemma dispose_mapped_signals (d : nat) (w : World) :
  orderly w -> signalled (dispose (S d) A w).1.
Proof.
  intros [Hs|Hp].
  - eapply signalled_evolves; [exact Hs | apply evolves_dispose].
  - cbn [dispose fst]. destruct Hp as (Ht & Hm & Ho).
    eapply signalled_evolves; [|apply evolves_base_dispose].
    eapply signalled_evolves;
      [|apply (evolves_fire (dispose d) A Disposed w (evolves_dispose d) Ho)].
    apply pending_log_fired. split; [exact Ht|]. split; assumption.
Qed.

Section Delivery.

Variable d : nat.
Hypothesis IH : forall g w, orderly w -> orderly (dispose d g w).1.

Lemma dispose_of_mapped (w w1 : World) (u : unit) :
  orderly w -> dispose d A w = (w1, Return u) -> signalled w1.
Proof.
  intros Ho Hr. destruct d as [|d']; [discriminate|].
  pose proof (dispose_mapped_signals d' w Ho) as Hs. rewrite Hr in Hs. exact Hs.
Qed.

Lemma orderly_invoke (f : FeatureRef) (ev : LifecycleEvent) (cb : Callback) (w : World) :
  orderly w -> orderly (invoke (dispose d) f ev cb w).1.
Proof.
  intros Ho. destruct Ho as [Hs|Hp].
  { left. eapply signalled_evolves; [exact Hs|].
    apply evolves_invoke. apply evolves_dispose. }
  destruct cb as [l nf | l c | tag]; cbn.
  - unfold on_initialized. destruct (features w !! l) as [old|] eqn:El.
    + destruct (dispose d old w) as [w1 [u|e]] eqn:Er; cbn.
      * destruct (decide (l = L)) as [->|Hl].
        -- left. destruct Hp as (Ht & Hm & Hopen).
           assert (old = A) by congruence. subst old.
           assert (Hs1 : signalled w1).
           { eapply dispose_of_mapped; [right; split; [exact Ht|split; assumption]|exact Er]. }
           eapply signalled_evolves; [exact Hs1|].
           eapply evolves_trans; [apply evolves_set_features | now apply evolves_log].
        -- pose proof (IH old w (or_intror Hp)) as Ho1. rewrite Er in Ho1. cbn in Ho1.
           destruct Ho1 as [Hs1|Hp1].
           ++ left. eapply signalled_evolves; [exact Hs1|].
              eapply evolves_trans; [apply evolves_set_features | now apply evolves_log].
           ++ right. apply pending_log_other; [|congruence].
              apply pending_set_features_other; [exact Hp1|].
              cbn. rewrite lookup_insert_ne by congruence. reflexivity.
      * pose proof (IH old w (or_intror Hp)) as Ho1. rewrite Er in Ho1. exact Ho1.
    + cbn. right. assert (Hl : l <> L).
      { intros ->. destruct Hp as (_ & Hm & _). congruence. }
      apply pending_log_other; [|congruence].
      apply pending_set_features_other; [exact Hp|].
      cbn. rewrite lookup_insert_ne by congruence. reflexivity.
  - unfold on_disposed. destruct (features w !! l) as [mapped|] eqn:El.
    + destruct (dispose d mapped w) as [w1 [u|e]] eqn:Er; cbn.
      * destruct (decide (l = L)) as [->|Hl].
        -- left. destruct Hp as (Ht & Hm & Hopen).
           assert (mapped = A) by congruence. subst mapped.
           assert (Hs1 : signalled w1).
           { eapply dispose_of_mapped; [right; split; [exact Ht|split; assumption]|exact Er]. }
           eapply signalled_evolves; [exact Hs1|].
           eapply evolves_trans; [apply evolves_set_features|].
           eapply evolves_trans; [apply (evolves_log (MapDelete L)); exact I
                                 | apply evolves_dispose_collection].
        -- pose proof (IH mapped w (or_intror Hp)) as Ho1. rewrite Er in Ho1. cbn in Ho1.
           destruct Ho1 as [Hs1|Hp1].
           ++ left. eapply signalled_evolves; [exact Hs1|].
              eapply evolves_trans; [apply evolves_set_features|].
              eapply evolves_trans; [apply (evolves_log (MapDelete l)); exact I
                                    | apply evolves_dispose_collection].
           ++ right. apply pending_dispose_collection.
              apply pending_log_other; [|discriminate].
              apply pending_set_features_other; [exact Hp1|].
              cbn. rewrite lookup_delete_ne by congruence. reflexivity.
      * pose proof (IH mapped w (or_intror Hp)) as Ho1. rewrite Er in Ho1. exact Ho1.
    + cbn. right. apply pending_dispose_collection. exact Hp.
  - right. apply pending_log_other; [exact Hp | discriminate].
Qed.

Lemma orderly_deliver (f : FeatureRef) (ev : LifecycleEvent)
  (cbs : list (nat * Callback)) (w : World) :
  orderly w -> orderly (deliver (dispose d) f ev cbs w).
Proof.
  unfold deliver. revert w. induction cbs as [|cb cbs IHc]; intros w Ho; cbn; [exact Ho|].
  apply IHc. apply orderly_invoke. exact Ho.
Qed.

End Delivery.

Lemma orderly_dispose (d : nat) (g : FeatureRef) (w : World) :
  orderly w -> orderly (dispose d g w).1.
Proof.
  revert g w. induction d as [|d IH]; intros g w Ho; [exact Ho|].
  destruct (decide (g = A)) as [->|Hne].
  { left. apply dispose_mapped_signals. exact Ho. }
  destruct Ho as [Hs|Hp].
  { left. eapply signalled_evolves; [exact Hs | apply evolves_dispose]. }
  cbn [dispose fst].
  assert (Hfire : orderly (fire (dispose d) g Disposed w)).
  { unfold fire. destruct (instances w !! g) as [ft|]; [|right; exact Hp].
    destruct (disposed _); [right; exact Hp|].
    apply orderly_deliver; [exact IH|]. right.
    apply pending_log_other; [exact Hp | discriminate]. }
  destruct Hfire as [Hs|Hp1].
  - left. eapply signalled_evolves; [exact Hs | apply evolves_base_dispose].
  - right. apply pending_base_dispose_other; assumption.
Qed.

End Supersede.




(** ** A feature that is not the mapped one is disposed *)

Lemma dispose_S (d : nat) (f : FeatureRef) (w : World) :
  dispose (S d) f w = (base_dispose f (fire (dispose d) f Disposed w), Return tt).
Proof. reflexivity. Qed.

(** The listener of [onDisposed] asks only whether the language has an
    entry, not whose entry it is. *)
Lemma bystander_evicts (d : nat) (w : World) (L : string) (B C : FeatureRef)
  (ft : Feature) (s c : nat) :
  features w !! L = Some B ->
  instances w !! C = Some ft ->
  onDisposedEmitter ft = {| callbacks := [(s, ServiceOnDisposed L c)]; disposed := false |} ->
  let w' := (dispose (S (S d)) C w).1 in
  features w' !! L = None
  /\ (is_open B Disposed w = true ->
      exists t, trace w' = trace w ++ Fired C Disposed :: Fired B Disposed :: t
                /\ In (MapDelete L) t).
Proof.
  intros Hmapped Hft Hem. cbn zeta. rewrite (dispose_S (S d) C w). cbn [fst].
  destruct (service_frame_base_dispose C
              (fire (dispose (S d)) C Disposed w)) as [Hf Ht]. rewrite Hf, Ht.
  unfold fire. rewrite Hft. cbn [emitter_of]. rewrite Hem. cbn [disposed callbacks].
  unfold deliver. cbn [foldl snd invoke]. unfold on_disposed.
  cbn [features log]. rewrite Hmapped.
  set (w0 := log (Fired C Disposed) w).
  rewrite (dispose_S d B w0).
  set (w2 := base_dispose B (fire (dispose d) B Disposed w0)).
  cbn [fst].
  destruct (service_frame_dispose_collection c
              (log (MapDelete L) (set_features (delete L (features w2)) w2))) as [Hf2 Ht2].
  rewrite Hf2, Ht2. cbn [features trace log set_features]. split.
  - apply lookup_delete_eq.
  - intros Hopen.
    assert (Hopen0 : is_open B Disposed w0 = true) by exact Hopen.
    pose proof (evolves_fire (dispose d) B Disposed w0 (evolves_dispose d) Hopen0)
      as [_ _ _ (t1 & Ht1 & _)].
    destruct (service_frame_base_dispose B (fire (dispose d) B Disposed w0)) as [_ Ht3].
    exists (t1 ++ [MapDelete L]). split.
    + subst w2. rewrite Ht3, Ht1. subst w0. cbn. rewrite <- !app_assoc. reflexivity.
    + apply in_or_app. right. left. reflexivity.
Qed.

(** C2 does not hold of the code.  Feature [0] serves "go"; feature
    [5] was created for "go", registered with the service, and never
    initialized, so it was never the mapped one.  Disposing [5] makes
    the service dispose feature [0] and delete the entry of "go", on
    every stack that has room for two nested calls. *)
Theorem bystander_dispose_evicts_served_feature (d : nat) :
  let w := Scenes.go_served_and_bystander in
  let w' := (dispose (S (S d)) 5 w).1 in
  features w !! "go" = Some 0
  /\ providers_of 5 w = []
  /\ fired_count 5 Initialized (trace w) = 0
  /\ features w' !! "go" = None
  /\ exists t, trace w' = trace w ++ Fired 5 Disposed :: Fired 0 Disposed :: t
               /\ In (MapDelete "go") t.
Proof.
  cbn zeta. split; [vm_compute; reflexivity|]. split; [vm_compute; reflexivity|].
  split; [vm_compute; reflexivity|].
  assert (Hft : instances Scenes.go_served_and_bystander !! 5
                = Some {| languageId := "go";
                          onInitializedEmitter :=
                            {| callbacks := [(7, ServiceOnInitialized "go" 5)];
                               disposed := false |};
                          onDisposedEmitter :=
                            {| callbacks := [(8, ServiceOnDisposed "go" 6)];
                               disposed := false |};
                          _providers := [] |})
    by (vm_compute; reflexivity).
  assert (Hmapped : features Scenes.go_served_and_bystander !! "go" = Some 0)
    by (vm_compute; reflexivity).
  destruct (bystander_evicts d _ "go" 0 5 _ 8 6 Hmapped Hft eq_refl) as [H1 H2].
  split; [exact H1|]. apply H2. vm_compute. reflexivity.
Qed.

Lemma is_open_lookup (f : FeatureRef) (ev : LifecycleEvent) (w : World) (ft : Feature) :
  instances w !! f = Some ft -> is_open f ev w = negb (disposed (emitter_of ev ft)).
Proof. intros H. unfold is_open. now rewrite H. Qed.

Lemma fire_lookup (rec : FeatureRef -> World -> World * Completion unit)
  (f : FeatureRef) (ev : LifecycleEvent) (w : World) (ft : Feature) :
  instances w !! f = Some ft ->
  fire rec f ev w
  = if disposed (emitter_of ev ft) then w
    else deliver rec f ev (callbacks (emitter_of ev ft)) (log (Fired f ev) w).
Proof. intros H. unfold fire. now rewrite H. Qed.

(** ** Disposals that are not re-entered *)

Lemma quietly_refl (w : World) : quietly w w.
Proof.
  split; try reflexivity. exists []. split; [now rewrite app_nil_r | constructor].
Qed.

Lemma quietly_trans (w1 w2 w3 : World) : quietly w1 w2 -> quietly w2 w3 -> quietly w1 w3.
Proof.
  intros [F1 V1 (t1 & T1 & K1)] [F2 V2 (t2 & T2 & K2)]. split.
  - congruence.
  - intros x. rewrite V2. apply V1.
  - exists (t1 ++ t2). split.
    + rewrite T2, T1, app_assoc. reflexivity.
    + apply Forall_app. split; assumption.
Qed.

Lemma fired_count_observations (g : FeatureRef) (ev : LifecycleEvent) (t : list Event) :
  Forall is_observation t -> fired_count g ev t = 0.
Proof.
  induction 1 as [|e t He _ IH]; [reflexivity|].
  unfold fired_count in *. destruct e; cbn in He; try contradiction. exact IH.
Qed.

Lemma invoke_disposes_nothing (rec : FeatureRef -> World -> World * Completion unit)
  (f : FeatureRef) (ev : LifecycleEvent) (cb : Callback) (w : World) :
  disposes_nothing w cb ->
  quietly w (invoke rec f ev cb w).1
  /\ forall rec', invoke rec' f ev cb w = invoke rec f ev cb w.
Proof.
  intros Hq. destruct cb as [l nf | l c | tag]; cbn in Hq; [contradiction | |].
  - cbn [invoke]. unfold on_disposed. rewrite Hq. cbn [fst]. split; [|reflexivity].
    destruct (service_frame_dispose_collection c w) as [Hf Ht]. split.
    + exact Hf.
    + intros x. apply view_dispose_collection.
    + exists []. split; [now rewrite Ht, app_nil_r | constructor].
  - cbn [invoke fst]. split; [|reflexivity]. split; try reflexivity.
    exists [Observed tag f ev]. split; [reflexivity|]. constructor; [exact I | constructor].
Qed.

Lemma deliver_disposes_nothing (rec : FeatureRef -> World -> World * Completion unit)
  (f : FeatureRef) (ev : LifecycleEvent) (cbs : list (nat * Callback)) (w : World) :
  Forall (fun c => disposes_nothing w c.2) cbs ->
  quietly w (deliver rec f ev cbs w)
  /\ forall rec', deliver rec' f ev cbs w = deliver rec f ev cbs w.
Proof.
  unfold deliver. revert w. induction cbs as [|cb cbs IH]; intros w Hall.
  - split; [apply quietly_refl | reflexivity].
  - inversion Hall as [|? ? Hcb Hrest]; subst. cbn [foldl].
    destruct (invoke_disposes_nothing rec f ev cb.2 w Hcb) as [Hq Hsame].
    assert (Hrest' : Forall (fun c => disposes_nothing (invoke rec f ev cb.2 w).1 c.2) cbs).
    { eapply Forall_impl; [exact Hrest|]. intros c Hc.
      destruct c as [s [l nf | l c0 | tag]]; cbn in *; try assumption.
      rewrite (q_features _ _ Hq). exact Hc. }
    destruct (IH _ Hrest') as [Hq2 Hsame2]. split.
    + eapply quietly_trans; eassumption.
    + intros rec'. rewrite Hsame. apply Hsame2.
Qed.

(** A disposal that is not re-entered, of a feature that holds a
    registration: what it leaves, and that the nested [dispose] plays
    no part in it. *)
Lemma dispose_not_reentered (d : nat) (f : FeatureRef) (w : World) :
  providers_of f w <> [] ->
  not_reentered f w ->
  let w' := (dispose (S d) f w).1 in
  view f w' = (false, false, [])
  /\ features w' = features w
  /\ (exists t, trace w'
                = trace w ++ (if is_open f Disposed w then [Fired f Disposed] else []) ++ t
                /\ Forall is_observation t)
  /\ forall rec, base_dispose f (fire rec f Disposed w) = w'.
Proof.
  intros Hreg Hquiet. cbn zeta. rewrite dispose_S. cbn [fst].
  unfold not_reentered in Hquiet.
  destruct (instances w !! f) as [ft|] eqn:Hft.
  2:{ unfold providers_of in Hreg. rewrite Hft in Hreg. congruence. }
  assert (Hfire : quietly (if is_open f Disposed w then log (Fired f Disposed) w else w)
                    (fire (dispose d) f Disposed w)
                  /\ forall rec, fire rec f Disposed w = fire (dispose d) f Disposed w).
  { rewrite (is_open_lookup _ _ _ _ Hft).
    setoid_rewrite (fun rec => fire_lookup rec f Disposed w ft Hft).
    cbn [emitter_of]. destruct (disposed (onDisposedEmitter ft)); cbn [negb].
    - split; [apply quietly_refl | reflexivity].
    - apply deliver_disposes_nothing.
      eapply Forall_impl; [exact Hquiet|]. intros c Hc.
      destruct c as [s [l nf | l c0 | tag]]; cbn in *; assumption. }
  destruct Hfire as [[Hf Hv (t & Ht & Hobs)] Hsame].
  set (w1 := fire (dispose d) f Disposed w) in *.
  assert (Hview1 : view f w1 = view f w).
  { rewrite Hv. destruct (is_open f Disposed w); reflexivity. }
  assert (Hprov1 : providers_of f w1 = providers_of f w).
  { unfold view in Hview1. congruence. }
  destruct (service_frame_base_dispose f w1) as [Hfb Htb].
  split; [|split; [|split]].
  - rewrite view_base_dispose. rewrite decide_True by reflexivity.
    rewrite Hprov1. destruct (providers_of f w); [congruence | reflexivity].
  - rewrite Hfb, Hf. destruct (is_open f Disposed w); reflexivity.
  - exists t. split; [|exact Hobs]. rewrite Htb, Ht.
    destruct (is_open f Disposed w); cbn; rewrite <- ?app_assoc; reflexivity.
  - intros rec. rewrite Hsame. reflexivity.
Qed.

(** C6, as the code has it.  A call of [dispose] that has room on the
    stack never raises.  On a feature that holds a registration (its
    negotiation succeeded) and whose disposal is not re-entered (no
    listener of its Disposed event disposes a feature), Disposed is
    signalled once if the stream is open and not at all otherwise; once
    the call has returned both streams are closed and no registration
    is kept, whatever a nested [dispose] would have done, and every
    further call is a silent no-op: it changes nothing and signals
    nothing.  On a feature that holds no registration (never
    initialized) and whose Disposed stream is open, the call signals
    Disposed and leaves the feature as it found it, so that the next
    call signals Disposed again. *)
Theorem dispose_settles_after_negotiation (d m : nat) (f : FeatureRef) (w : World) :
  let w' := (dispose (S d) f w).1 in
  (dispose (S d) f w).2 = Return tt
  /\ (providers_of f w <> [] -> not_reentered f w ->
      is_open f Initialized w' = false
      /\ is_open f Disposed w' = false
      /\ providers_of f w' = []
      /\ fired_count f Disposed (trace w')
         = fired_count f Disposed (trace w) + (if is_open f Disposed w then 1 else 0)
      /\ (forall rec, base_dispose f (fire rec f Disposed w) = w')
      /\ dispose (S m) f w' = (w', Return tt))
  /\ (providers_of f w = [] -> is_open f Disposed w = true ->
      (exists t, trace w' = trace w ++ Fired f Disposed :: t)
      /\ providers_of f w' = []
      /\ is_open f Disposed w' = true).
Proof.
  cbn zeta. split; [reflexivity|]. split.
  - intros Hreg Hquiet.
    destruct (dispose_not_reentered d f w Hreg Hquiet)
      as (Hview & _ & (t & Ht & Hobs) & Hrec).
    unfold view in Hview.
    assert (Hi : is_open f Initialized (dispose (S d) f w).1 = false) by congruence.
    assert (Hd : is_open f Disposed (dispose (S d) f w).1 = false) by congruence.
    assert (Hnone : providers_of f (dispose (S d) f w).1 = []) by congruence.
    split; [exact Hi|]. split; [exact Hd|]. split; [exact Hnone|].
    split; [|split; [exact Hrec|]].
    + rewrite Ht, !fired_count_app, (fired_count_observations f Disposed t Hobs).
      destruct (is_open f Disposed w).
      * unfold fired_count at 2. cbn. rewrite Nat.eqb_refl. cbn. lia.
      * unfold fired_count at 2. cbn. lia.
    + revert Hd Hnone. generalize (dispose (S d) f w).1 as w'. intros w' Hd Hnone.
      rewrite dispose_S. rewrite fire_closed by exact Hd.
      rewrite base_dispose_nothing_kept by exact Hnone. reflexivity.
  - intros Hnone Hopen.
    assert (Hu : unregistered (view f (dispose (S d) f w).1)).
    { apply view_kept_dispose; [apply unregistered_base|]. split; assumption. }
    destruct Hu as [Hu1 Hu2]. unfold view in Hu1, Hu2. cbn [fst snd] in Hu1, Hu2.
    repeat split; try assumption.
    pose proof (evolves_fire (dispose d) f Disposed w (evolves_dispose d) Hopen)
      as [_ _ _ (t1 & Ht1 & _)].
    pose proof (evolves_base_dispose f (fire (dispose d) f Disposed w))
      as [_ _ _ (t2 & Ht2 & _)].
    exists (t1 ++ t2). rewrite dispose_S. cbn [fst]. rewrite Ht2, Ht1. cbn.
    rewrite <- !app_assoc. reflexivity.
Qed.

Lemma dispose_settles_after_negotiation_witness :
  let settled_world := (dispose 8 0 MoreScenes.watched_registered).1 in
  is_open 0 Disposed settled_world = false
  /\ fired_count 0 Disposed (trace settled_world) = 1
  /\ dispose 3 0 settled_world = (settled_world, Return tt)
  /\ is_open 0 Disposed (dispose 8 0 Scenes.watched).1 = true.
Proof.
  cbn zeta.
  assert (Hreg : providers_of 0 MoreScenes.watched_registered <> [])
    by (vm_compute; discriminate).
  assert (Hquiet : not_reentered 0 MoreScenes.watched_registered).
  { unfold not_reentered.
    replace (instances MoreScenes.watched_registered !! 0)
      with (Some {| languageId := "go";
                    onInitializedEmitter :=
                      {| callbacks := [(1, Observer 1)]; disposed := false |};
                    onDisposedEmitter :=
                      {| callbacks := [(2, Observer 2)]; disposed := false |};
                    _providers := [3] |})
      by (vm_compute; reflexivity).
    repeat constructor. }
  destruct (dispose_settles_after_negotiation 7 2 0 MoreScenes.watched_registered)
    as (_ & Hsecond & _).
  destruct (Hsecond Hreg Hquiet) as (_ & Hd & _ & Hcount & _ & Hagain).
  split; [exact Hd|]. split; [rewrite Hcount; vm_compute; reflexivity|].
  split; [exact Hagain|].
  apply (dispose_settles_after_negotiation 7 2 0 Scenes.watched);
    vm_compute; reflexivity.
Defined.

(** C6, as the specification words it, fails: a feature that was never
    initialized signals Disposed when it is disposed, and signals it a
    second time when it is disposed again; its observer is told twice. *)
Lemma dispose_before_initialize_counterexample :
  let once := (dispose 8 0 Scenes.watched).1 in
  let twice := (dispose 8 0 once).1 in
  providers_of 0 Scenes.watched = []
  /\ trace Scenes.watched = []
  /\ trace once = [Fired 0 Disposed; Observed 2 0 Disposed]
  /\ trace twice
     = [Fired 0 Disposed; Observed 2 0 Disposed; Fired 0 Disposed; Observed 2 0 Disposed]
  /\ fired_count 0 Disposed (trace twice) = 2.
Proof. cbn zeta. repeat split; vm_compute; reflexivity. Qed.

(** * Further properties of the code *)

(** ** Assignments to one object *)

Lemma set_prop_idem k v v' o : set_prop k v (set_prop k v' o) = set_prop k v o.
Proof.
  induction o as [|[k0 v0] o IH]; simpl.
  - now rewrite String.eqb_refl.
  - destruct (String.eqb k k0) eqn:E; simpl.
    + now rewrite String.eqb_refl.
    + rewrite E. now rewrite IH.
Qed.

Lemma set_prop_swap k1 k2 a b c o :
  k1 <> k2 ->
  set_prop k1 a (set_prop k2 b (set_prop k1 c o)) = set_prop k2 b (set_prop k1 a o).
Proof.
  intros Hne.
  assert (E12 : String.eqb k1 k2 = false) by (apply String.eqb_neq; exact Hne).
  assert (E21 : String.eqb k2 k1 = false) by (apply String.eqb_neq; congruence).
  induction o as [|[k0 v0] o IH]; simpl.
  - rewrite E21. simpl. rewrite String.eqb_refl. reflexivity.
  - destruct (String.eqb k1 k0) eqn:E1; simpl.
    + apply String.eqb_eq in E1. subst k0. rewrite E21. simpl.
      rewrite String.eqb_refl. reflexivity.
    + destruct (String.eqb k2 k0) eqn:E2; simpl.
      * rewrite E12. f_equal. apply set_prop_idem.
      * rewrite E1. f_equal. exact IH.
Qed.

Lemma has_set_prop_eq k v o : has_prop k (set_prop k v o) = true.
Proof.
  induction o as [|[k0 v0] o IH]; simpl.
  - now rewrite String.eqb_refl.
  - destruct (String.eqb k k0) eqn:E; simpl.
    + now rewrite String.eqb_refl.
    + now rewrite E.
Qed.

(** ** Branding *)

(** X11. What [setResource] stores for one of the two branding types is
    what [getResource] gives back for that type; for any other type
    [setResource] stores nothing and [getResource] gives the empty
    string; and setting one type leaves what is read for every other
    type as it was. *)
Theorem branding_set_then_get (type other : Z) (path : string)
  (s : DefaultBrandingService.State) :
  DefaultBrandingService.getResource type (DefaultBrandingService.setResource type path s)
  = (if (type =? DefaultBrandingService.MAIN_LOGO)%Z
        || (type =? DefaultBrandingService.MENU_LOGO)%Z then path else "")
  /\ (other <> type ->
      DefaultBrandingService.getResource other
        (DefaultBrandingService.setResource type path s)
      = DefaultBrandingService.getResource other s).
Proof.
  unfold DefaultBrandingService.getResource, DefaultBrandingService.setResource,
    DefaultBrandingService.MAIN_LOGO, DefaultBrandingService.MENU_LOGO.
  split.
  - destruct (type =? 0)%Z eqn:E0; [reflexivity|].
    destruct (type =? 1)%Z eqn:E1; reflexivity.
  - intros Hne.
    destruct (type =? 0)%Z eqn:E0.
    { apply Z.eqb_eq in E0. destruct (other =? 0)%Z eqn:O0; [|reflexivity].
      apply Z.eqb_eq in O0. lia. }
    destruct (type =? 1)%Z eqn:E1; [|reflexivity].
    apply Z.eqb_eq in E1. destruct (other =? 0)%Z eqn:O0; [reflexivity|].
    destruct (other =? 1)%Z eqn:O1; [|reflexivity].
    apply Z.eqb_eq in O1. lia.
Qed.

Lemma branding_set_then_get_witness :
  DefaultBrandingService.getResource DefaultBrandingService.MAIN_LOGO
    (DefaultBrandingService.setResource DefaultBrandingService.MENU_LOGO "logo.svg"
       DefaultBrandingService.initial)
  = "../../src/browser/style/variables-dark.useable.css".
Proof.
  apply (branding_set_then_get DefaultBrandingService.MENU_LOGO
           DefaultBrandingService.MAIN_LOGO "logo.svg" DefaultBrandingService.initial).
  discriminate.
Defined.

(** ** Client capabilities *)

(** X7. When [fillClientCapabilities] completes, the capabilities hold
    [textDocument.typeHierarchyCapabilities = { typeHierarchy: true }];
    every other property of the capabilities and every other property of
    [textDocument] is as it was (a missing [textDocument] counts as
    empty); and filling the result again changes nothing. *)
Theorem fillClientCapabilities_fills_once (capabilities filled : Obj) :
  Capabilities.fillClientCapabilities capabilities = Return filled ->
  Capabilities.fillClientCapabilities filled = Return filled
  /\ (forall k, k <> "textDocument" -> get_prop k filled = get_prop k capabilities)
  /\ exists textDocument,
       get_prop "textDocument" filled = VObj textDocument
       /\ get_prop "typeHierarchyCapabilities" textDocument
          = VObj [("typeHierarchy", VBool true)]
       /\ forall k, k <> "typeHierarchyCapabilities" ->
            get_prop k textDocument
            = match get_prop "textDocument" capabilities with
              | VObj before => get_prop k before
              | _ => VUndefined
              end.
Proof.
  unfold Capabilities.fillClientCapabilities.
  set (flag := VObj [("typeHierarchy", VBool true)]).
  intros Hfill.
  assert (Hshape : exists before,
            filled = set_prop "textDocument"
                       (VObj (set_prop "typeHierarchyCapabilities" flag before)) capabilities
            /\ forall k, get_prop k before
                         = match get_prop "textDocument" capabilities with
                           | VObj b => get_prop k b
                           | _ => VUndefined
                           end).
  { destruct (truthy (get_prop "textDocument" capabilities)) eqn:Et.
    - destruct (get_prop "textDocument" capabilities) as [| | | | | |before] eqn:Eg;
        try discriminate.
      exists before. split; [congruence | reflexivity].
    - rewrite get_set_prop_eq in Hfill. rewrite set_prop_idem in Hfill.
      exists []. split; [congruence|].
      intros k. destruct (get_prop "textDocument" capabilities); try reflexivity.
      discriminate. }
  destruct Hshape as (before & -> & Hbefore). split; [|split].
  - rewrite get_set_prop_eq. cbn [truthy]. rewrite get_set_prop_eq.
    rewrite !set_prop_idem. reflexivity.
  - intros k Hk. apply get_set_prop_ne. exact Hk.
  - exists (set_prop "typeHierarchyCapabilities" flag before).
    split; [apply get_set_prop_eq|]. split; [apply get_set_prop_eq|].
    intros k Hk. rewrite get_set_prop_ne by exact Hk. apply Hbefore.
Qed.

Lemma fillClientCapabilities_fills_once_witness :
  let filled :=
    [("workspace", VObj [("applyEdit", VBool true)]);
     ("textDocument",
      VObj [("hover", VObj [("dynamicRegistration", VBool true)]);
            ("typeHierarchyCapabilities", VObj [("typeHierarchy", VBool true)])])] in
  Capabilities.fillClientCapabilities MoreScenes.some_capabilities = Return filled
  /\ Capabilities.fillClientCapabilities filled = Return filled
  /\ get_prop "workspace" filled = get_prop "workspace" MoreScenes.some_capabilities.
Proof.
  intros filled.
  assert (H : Capabilities.fillClientCapabilities MoreScenes.some_capabilities
              = Return filled) by (vm_compute; reflexivity).
  split; [exact H|].
  destruct (fillClientCapabilities_fills_once MoreScenes.some_capabilities filled H)
    as (Hagain & Hframe & _).
  split; [exact Hagain|]. apply Hframe. discriminate.
Defined.

(** ** Queries on arbitrary objects *)

Lemma types_derives sendRequest (w : World) (f : FeatureRef) (arg : nat)
  (o range : Obj) (direction : string) :
  heap w !! arg = Some o ->
  isTextDocumentPositionParams o = false ->
  get_prop "range" o = VObj range ->
  let params := [("position", get_prop "start" range);
                 ("textDocument", VObj [("uri", get_prop "uri" o)]);
                 ("direction", VStr direction); ("resolve", VNum 1)] in
  let r := types sendRequest (Some f) arg direction w in
  trace r.1 = trace w ++ [Request f TypeHierarchyRequest_type params]
  /\ r.2 = match sendRequest f TypeHierarchyRequest_type params with
           | Return item => Return (if truthy item then item else VUndefined)
           | Throw e => Throw e
           end
  /\ (arg <> fresh w -> heap r.1 !! arg = Some o)
  /\ features r.1 = features w.
Proof.
  intros Harg Hshape Hrange. cbn zeta. unfold types, toTextDocumentPositionParams.
  rewrite Harg, Hshape, Hrange. cbn [member].
  unfold alloc, write, get. cbn [fst snd heap set_heap bump].
  rewrite lookup_insert_eq. cbn [heap set_heap].
  rewrite lookup_insert_eq. cbn [heap set_heap].
  rewrite lookup_insert_eq.
  destruct (sendRequest f _ _); cbn; repeat split; try reflexivity;
    intros Hne; rewrite !lookup_insert_ne by congruence; exact Harg.
Qed.

Lemma types_passes sendRequest (w : World) (f : FeatureRef) (arg : nat)
  (o : Obj) (direction : string) :
  heap w !! arg = Some o ->
  isTextDocumentPositionParams o = true ->
  let r := types sendRequest (Some f) arg direction w in
  trace r.1 = trace w ++ [Request f TypeHierarchyRequest_type (overwritten o direction)]
  /\ r.2 = match sendRequest f TypeHierarchyRequest_type (overwritten o direction) with
           | Return item => Return (if truthy item then item else VUndefined)
           | Throw e => Throw e
           end
  /\ heap r.1 !! arg = Some (overwritten o direction)
  /\ features r.1 = features w
  /\ fresh r.1 = fresh w.
Proof.
  intros Harg Hshape. cbn zeta. unfold types, toTextDocumentPositionParams.
  rewrite Harg, Hshape. unfold write, get. rewrite Harg. cbn [heap set_heap].
  rewrite lookup_insert_eq. cbn [heap set_heap].
  rewrite lookup_insert_eq. fold (overwritten o direction).
  destruct (sendRequest f _ _); cbn; rewrite lookup_insert_eq; repeat split; reflexivity.
Qed.

Lemma shape_kept (o : Obj) (direction : string) :
  isTextDocumentPositionParams (overwritten o direction) = isTextDocumentPositionParams o.
Proof.
  unfold isTextDocumentPositionParams, overwritten.
  rewrite !has_set_prop_ne, !get_set_prop_ne by discriminate. reflexivity.
Qed.

(** X12. An object that fails the position-parameter test and has an
    object under [range] is turned into a request without any check of
    what it holds: [position] is whatever is under [range.start] and
    [textDocument.uri] whatever is under [uri], [undefined] when the
    property is missing; the request is sent all the same, with
    [resolve] 1 and the requested direction. *)
Theorem derivation_checks_nothing sendRequest (w : World) (languageId : string)
  (f : FeatureRef) (arg : nat) (o range : Obj) :
  features w !! languageId = Some f ->
  heap w !! arg = Some o ->
  isTextDocumentPositionParams o = false ->
  get_prop "range" o = VObj range ->
  trace (superTypes sendRequest languageId arg w).1
  = trace w ++ [Request f TypeHierarchyRequest_type
                  [("position", get_prop "start" range);
                   ("textDocument", VObj [("uri", get_prop "uri" o)]);
                   ("direction", VStr "parents"); ("resolve", VNum 1)]]
  /\ trace (subTypes sendRequest languageId arg w).1
     = trace w ++ [Request f TypeHierarchyRequest_type
                     [("position", get_prop "start" range);
                      ("textDocument", VObj [("uri", get_prop "uri" o)]);
                      ("direction", VStr "children"); ("resolve", VNum 1)]].
Proof.
  intros Hf Harg Hshape Hrange. unfold superTypes, subTypes. rewrite Hf.
  destruct (types_derives sendRequest w f arg o range "parents" Harg Hshape Hrange)
    as (Hp & _).
  destruct (types_derives sendRequest w f arg o range "children" Harg Hshape Hrange)
    as (Hc & _).
  split; assumption.
Qed.

Lemma derivation_checks_nothing_witness :
  trace (superTypes Scenes.silent_client "go" 14 MoreScenes.go_served_more).1
  = trace MoreScenes.go_served_more
    ++ [Request 0 TypeHierarchyRequest_type
          [("position", VUndefined); ("textDocument", VObj [("uri", VUndefined)]);
           ("direction", VStr "parents"); ("resolve", VNum 1)]].
Proof.
  apply (derivation_checks_nothing Scenes.silent_client MoreScenes.go_served_more "go" 0 14
           MoreScenes.half_shaped
           [("end", VObj [("line", VNum 9); ("character", VNum 1)])]);
    vm_compute; reflexivity.
Defined.

(** X9. With a feature mapped for the language, an argument that fails
    the position-parameter test and has nothing under [range]
    ([undefined] or [null]) makes [superTypes] and [subTypes] reject
    with a [TypeError]; no request is sent, no object is made, and
    nothing else changes. *)
Theorem argument_without_range_rejected sendRequest (w : World) (languageId : string)
  (f : FeatureRef) (arg : nat) (o : Obj) :
  features w !! languageId = Some f ->
  heap w !! arg = Some o ->
  isTextDocumentPositionParams o = false ->
  get_prop "range" o = VUndefined \/ get_prop "range" o = VNull ->
  exists message,
    superTypes sendRequest languageId arg w = (w, Throw (TypeError message))
    /\ subTypes sendRequest languageId arg w = (w, Throw (TypeError message)).
Proof.
  intros Hf Harg Hshape Hrange. unfold superTypes, subTypes, types.
  rewrite Hf. unfold toTextDocumentPositionParams. rewrite Harg, Hshape.
  destruct Hrange as [-> | ->]; cbn [member]; eexists; split; reflexivity.
Qed.

Lemma argument_without_range_rejected_witness :
  exists message,
    superTypes Scenes.silent_client "go" 13 MoreScenes.go_served_more
    = (MoreScenes.go_served_more, Throw (TypeError message))
    /\ subTypes Scenes.silent_client "go" 13 MoreScenes.go_served_more
       = (MoreScenes.go_served_more, Throw (TypeError message)).
Proof.
  apply (argument_without_range_rejected Scenes.silent_client MoreScenes.go_served_more
           "go" 0 13 MoreScenes.shapeless); try (vm_compute; reflexivity).
  left. vm_compute. reflexivity.
Defined.

(** X8. When the client rejects every request with an error, [get]
    rejects with that same error, and so do [superTypes] and
    [subTypes] for every argument from which a request is made (a
    position parameter, or an object with an object under [range]);
    the error is neither wrapped nor replaced, and the request was
    made. *)
Theorem transport_failure_propagates sendRequest (w : World) (languageId : string)
  (f : FeatureRef) (arg : nat) (o : Obj) (e : JsError) :
  (forall method params, sendRequest f method params = Throw e) ->
  features w !! languageId = Some f ->
  heap w !! arg = Some o ->
  isTextDocumentPositionParams o = true \/ (exists range, get_prop "range" o = VObj range) ->
  get sendRequest f arg w = (log (Request f TypeHierarchyRequest_type o) w, Throw e)
  /\ (superTypes sendRequest languageId arg w).2 = Throw e
  /\ (subTypes sendRequest languageId arg w).2 = Throw e
  /\ (exists params,
        trace (superTypes sendRequest languageId arg w).1
        = trace w ++ [Request f TypeHierarchyRequest_type params]).
Proof.
  intros Hdown Hf Harg Hkind. split.
  { unfold get. rewrite Harg, Hdown. reflexivity. }
  unfold superTypes, subTypes. rewrite Hf.
  destruct (isTextDocumentPositionParams o) eqn:Hshape.
  - destruct (types_passes sendRequest w f arg o "parents" Harg Hshape) as (Ht & Hp & _).
    destruct (types_passes sendRequest w f arg o "children" Harg Hshape) as (_ & Hc & _).
    rewrite Hdown in Hp, Hc. repeat split; try assumption. eexists. exact Ht.
  - destruct Hkind as [?|[range Hrange]]; [discriminate|].
    destruct (types_derives sendRequest w f arg o range "parents" Harg Hshape Hrange)
      as (Ht & Hp & _).
    destruct (types_derives sendRequest w f arg o range "children" Harg Hshape Hrange)
      as (_ & Hc & _).
    rewrite Hdown in Hp, Hc. repeat split; try assumption. eexists. exact Ht.
Qed.

Lemma transport_failure_propagates_witness :
  (superTypes MoreScenes.failing_client "go" 12 Scenes.go_served).2
  = Throw (Error "connection closed").
Proof.
  apply (transport_failure_propagates MoreScenes.failing_client Scenes.go_served "go" 0 12
           (item_to_js Scenes.an_item) (Error "connection closed")).
  - reflexivity.
  - vm_compute. reflexivity.
  - vm_compute. reflexivity.
  - right. eexists. vm_compute. reflexivity.
Defined.

(** X10. A position parameter that has been through one query is still
    a position parameter, and the same object serves the next query:
    after [superTypes] and then [subTypes] on it, two requests have
    been sent, the first for parents and the second for children, no
    object was made, and the caller's object is left asking for
    children, exactly as if only [subTypes] had been called. *)
Theorem last_direction_wins sendRequest (w : World) (languageId : string)
  (f : FeatureRef) (arg : nat) (o : Obj) :
  features w !! languageId = Some f ->
  heap w !! arg = Some o ->
  isTextDocumentPositionParams o = true ->
  let w1 := (superTypes sendRequest languageId arg w).1 in
  let w2 := (subTypes sendRequest languageId arg w1).1 in
  trace w2 = trace w ++ [Request f TypeHierarchyRequest_type (overwritten o "parents");
                         Request f TypeHierarchyRequest_type (overwritten o "children")]
  /\ heap w2 !! arg = Some (overwritten o "children")
  /\ heap w2 !! arg = heap (subTypes sendRequest languageId arg w).1 !! arg
  /\ fresh w2 = fresh w.
Proof.
  intros Hf Harg Hshape. cbn zeta. unfold superTypes at 1 2 3 4. rewrite Hf.
  destruct (types_passes sendRequest w f arg o "parents" Harg Hshape)
    as (Ht1 & _ & Hh1 & Hf1 & Hn1).
  set (w1 := (types sendRequest (Some f) arg "parents" w).1) in *.
  unfold subTypes. rewrite Hf1, Hf.
  assert (Hshape1 : isTextDocumentPositionParams (overwritten o "parents") = true)
    by (rewrite shape_kept; exact Hshape).
  destruct (types_passes sendRequest w1 f arg (overwritten o "parents") "children"
              Hh1 Hshape1) as (Ht2 & _ & Hh2 & _ & Hn2).
  destruct (types_passes sendRequest w f arg o "children" Harg Hshape)
    as (_ & _ & Hh3 & _).
  assert (Hlast : overwritten (overwritten o "parents") "children"
                  = overwritten o "children").
  { unfold overwritten.
    rewrite (set_prop_swap "direction" "resolve") by discriminate.
    apply set_prop_idem. }
  rewrite Hlast in *.
  split; [|split; [|split]].
  - rewrite Ht2, Ht1, <- app_assoc. reflexivity.
  - exact Hh2.
  - rewrite Hh2, Hh3. reflexivity.
  - congruence.
Qed.

Lemma last_direction_wins_witness :
  heap (subTypes Scenes.silent_client "go" 10
          (superTypes Scenes.silent_client "go" 10 Scenes.go_served).1).1 !! 10
  = Some (overwritten Scenes.both_params "children").
Proof.
  apply (last_direction_wins Scenes.silent_client Scenes.go_served "go" 0 10
           Scenes.both_params); vm_compute; reflexivity.
Defined.

(** ** A feature from creation to disposal *)

(** What [createNewFeature] leaves behind: a new instance with the
    service's two listeners, the collection that holds their
    subscriptions, and nothing else touched. *)
Lemma createNewFeature_eq (L : string) (w : World) :
  createNewFeature L w
  = (fresh w,
     {| features := features w;
        instances :=
          <[fresh w :=
              {| languageId := L;
                 onInitializedEmitter :=
                   {| callbacks := [(fresh w + 1 + 1, ServiceOnInitialized L (fresh w))];
                      disposed := false |};
                 onDisposedEmitter :=
                   {| callbacks := [(fresh w + 1 + 2, ServiceOnDisposed L (fresh w + 1))];
                      disposed := false |};
                 _providers := [] |}]> (instances w);
        collections :=
          <[fresh w + 1 := [Unsubscribe (fresh w) Initialized (fresh w + 1 + 1);
                            Unsubscribe (fresh w) Disposed (fresh w + 1 + 2)]]>
            (collections w);
        heap := heap w;
        trace := trace w;
        fresh := fresh w + 1 + 3 |}).
Proof.
  unfold createNewFeature, new_feature, register.
  cbn [instances set_instances bump fresh]. rewrite lookup_insert_eq.
  cbn [languageId]. unfold update_feature.
  cbn [instances set_instances bump]. rewrite lookup_insert_eq.
  cbn [instances set_instances bump]. rewrite lookup_insert_eq.
  unfold set_collections, set_instances, bump, with_emitter, add_callback. cbn.
  rewrite !insert_insert_eq. reflexivity.
Qed.

(** The store after a new feature of a language with no mapped feature
    has completed its negotiation. *)
Lemma negotiated_state (d : nat) (L : string) (capabilities : Obj)
  (documentSelector : JsVal) (w : World) :
  features w !! L = None ->
  truthy documentSelector = true ->
  truthy (get_prop "typeHierarchy" capabilities) = true ->
  let f := fresh w in
  let w2 := initialize d f capabilities documentSelector (createNewFeature L w).2 in
  features w2 = <[L := f]> (features w)
  /\ (exists ft, instances w2 !! f = Some ft
        /\ onDisposedEmitter ft
           = {| callbacks := [(fresh w + 1 + 2, ServiceOnDisposed L (fresh w + 1))];
                disposed := false |})
  /\ exists t, trace w2 = trace w ++ Fired f Initialized :: MapSet L f :: t.
Proof.
  intros Hnone Hsel Hcap. cbn zeta. rewrite createNewFeature_eq. cbn [snd].
  unfold initialize. rewrite Hsel, Hcap. cbn [negb].
  unfold fire. cbn [instances]. rewrite lookup_insert_eq.
  cbn [emitter_of onInitializedEmitter disposed callbacks].
  unfold deliver. cbn [foldl snd invoke]. unfold on_initialized.
  cbn [features log]. rewrite Hnone. cbn [fst].
  unfold base_register.
  destruct (truthy (get_prop "documentSelector" _)).
  - split; [|split].
    + cbn [features log].
      match goal with
      | |- features (update_feature ?g ?h ?x) = _ =>
          destruct (update_feature_frame g h x) as (Hf & _); rewrite Hf
      end.
      reflexivity.
    + cbn [instances log]. rewrite instances_update_feature.
      cbn [instances bump set_features log]. rewrite lookup_insert_eq.
      rewrite decide_True by reflexivity. cbn.
      eexists. split; reflexivity.
    + cbn [trace log].
      match goal with
      | |- exists t, trace (update_feature ?g ?h ?x) ++ _ = _ =>
          destruct (update_feature_frame g h x) as (_ & Ht & _); rewrite Ht
      end.
      cbn. eexists. rewrite <- !app_assoc. cbn. reflexivity.
  - split; [reflexivity|]. split.
    + cbn. rewrite lookup_insert_eq. eexists. split; reflexivity.
    + cbn. exists []. rewrite <- !app_assoc. reflexivity.
Qed.

(** X2. A feature newly created for a language that has no mapped
    feature is not enabled by its creation; after [initialize] the
    language is enabled exactly when the negotiation succeeded, that
    is, when the document selector is present and the server's
    capability is truthy (and the language id is not empty, for which
    [isEnabledFor] always answers [false]); a successful negotiation
    leaves the new feature as the mapped one. *)
Theorem enabled_exactly_when_negotiated (d : nat) (L : string) (capabilities : Obj)
  (documentSelector : JsVal) (w : World) :
  features w !! L = None ->
  let f := (createNewFeature L w).1 in
  let w1 := (createNewFeature L w).2 in
  let w2 := initialize d f capabilities documentSelector w1 in
  isEnabledFor (Some L) w1 = false
  /\ isEnabledFor (Some L) w2
     = negb (String.eqb L "") && truthy documentSelector
       && truthy (get_prop "typeHierarchy" capabilities)
  /\ (truthy documentSelector = true ->
      truthy (get_prop "typeHierarchy" capabilities) = true ->
      features w2 !! L = Some f).
Proof.
  intros Hnone. cbn zeta.
  assert (Hw1 : features (createNewFeature L w).2 !! L = None).
  { rewrite createNewFeature_eq. exact Hnone. }
  assert (Hf : (createNewFeature L w).1 = fresh w).
  { rewrite createNewFeature_eq. reflexivity. }
  rewrite Hf. split; [|split].
  - unfold isEnabledFor. rewrite Hw1. rewrite bool_decide_eq_false_2.
    + apply andb_false_r.
    + intros [x Hx]. discriminate.
  - destruct (truthy documentSelector) eqn:Hsel;
      [destruct (truthy (get_prop "typeHierarchy" capabilities)) eqn:Hcap|].
    + destruct (negotiated_state d L capabilities documentSelector w Hnone Hsel Hcap)
        as (Hfeat & _).
      unfold isEnabledFor. rewrite Hfeat, lookup_insert_eq.
      rewrite bool_decide_eq_true_2 by eauto. rewrite !andb_true_r. reflexivity.
    + unfold initialize. rewrite Hsel, Hcap. cbn [negb].
      unfold isEnabledFor. rewrite Hw1. rewrite bool_decide_eq_false_2.
      * rewrite !andb_false_r. reflexivity.
      * intros [x Hx]. discriminate.
    + unfold initialize. rewrite Hsel. cbn [negb].
      unfold isEnabledFor. rewrite Hw1. rewrite bool_decide_eq_false_2.
      * rewrite andb_false_r. reflexivity.
      * intros [x Hx]. discriminate.
  - intros Hsel Hcap.
    destruct (negotiated_state d L capabilities documentSelector w Hnone Hsel Hcap)
      as (Hfeat & _).
    rewrite Hfeat. apply lookup_insert_eq.
Qed.

Lemma enabled_exactly_when_negotiated_witness :
  isEnabledFor (Some "java")
    (initialize 8 (createNewFeature "java" Scenes.go_served).1
       Scenes.supporting Scenes.go_selector (createNewFeature "java" Scenes.go_served).2)
  = true
  /\ isEnabledFor (Some "java")
       (initialize 8 (createNewFeature "java" Scenes.go_served).1
          [] Scenes.go_selector (createNewFeature "java" Scenes.go_served).2)
     = false.
Proof.
  split.
  - refine (eq_trans (proj1 (proj2 (enabled_exactly_when_negotiated 8 "java"
              Scenes.supporting Scenes.go_selector Scenes.go_served _))) _);
      vm_compute; reflexivity.
  - refine (eq_trans (proj1 (proj2 (enabled_exactly_when_negotiated 8 "java"
              [] Scenes.go_selector Scenes.go_served _))) _);
      vm_compute; reflexivity.
Defined.

(** The first thing a call of [dispose] with room on the stack does, on
    a feature whose Disposed stream is open, is to signal Disposed. *)
Lemma dispose_signals_first (d : nat) (f : FeatureRef) (w : World) :
  is_open f Disposed w = true ->
  exists t, trace (dispose (S d) f w).1 = trace w ++ Fired f Disposed :: t.
Proof.
  intros Hopen. rewrite dispose_S. cbn [fst].
  pose proof (evolves_fire (dispose d) f Disposed w (evolves_dispose d) Hopen)
    as [_ _ _ (t1 & Ht1 & _)].
  destruct (service_frame_base_dispose f (fire (dispose d) f Disposed w)) as [_ Ht].
  exists t1. rewrite Ht, Ht1. cbn. rewrite <- app_assoc. reflexivity.
Qed.

Lemma providers_lookup (f : FeatureRef) (w : World) (ft : Feature) :
  instances w !! f = Some ft -> providers_of f w = _providers ft.
Proof. intros H. unfold providers_of. now rewrite H. Qed.

(** X4. A feature that is the mapped one for its language, with the
    service's listener on its open Disposed stream, does not signal
    Disposed once when it is disposed: the listener calls [dispose] on
    the mapped feature, which is the feature itself.  With room on the
    stack for that nested call, the first two events of the disposal
    are both the feature's Disposed signal. *)
Theorem mapped_feature_signals_more_than_once (d : nat) (w : World) (L : string)
  (f : FeatureRef) (ft : Feature) (s c : nat) :
  features w !! L = Some f ->
  instances w !! f = Some ft ->
  onDisposedEmitter ft = {| callbacks := [(s, ServiceOnDisposed L c)]; disposed := false |} ->
  (exists t, trace (dispose (S (S d)) f w).1
             = trace w ++ Fired f Disposed :: Fired f Disposed :: t)
  /\ fired_count f Disposed (trace w) + 2
     <= fired_count f Disposed (trace (dispose (S (S d)) f w).1).
Proof.
  intros Hmapped Hft Hem.
  assert (Hopen : is_open f Disposed w = true).
  { rewrite (is_open_lookup _ _ _ _ Hft). cbn. rewrite Hem. reflexivity. }
  destruct (bystander_evicts d w L f f ft s c Hmapped Hft Hem) as [_ Htrace].
  destruct (Htrace Hopen) as (t & Ht & _).
  split; [exists t; exact Ht|].
  rewrite Ht, fired_count_app.
  change (Fired f Disposed :: Fired f Disposed :: t)
    with ([Fired f Disposed; Fired f Disposed] ++ t).
  rewrite fired_count_app. unfold fired_count at 3. cbn.
  rewrite Nat.eqb_refl. cbn. lia.
Qed.

Lemma mapped_feature_signals_more_than_once_witness :
  fired_count 0 Disposed (trace Scenes.go_served) + 2
  <= fired_count 0 Disposed (trace (dispose 6 0 Scenes.go_served).1).
Proof.
  refine (proj2 (mapped_feature_signals_more_than_once 4 Scenes.go_served "go" 0
            {| languageId := "go";
               onInitializedEmitter :=
                 {| callbacks := [(2, ServiceOnInitialized "go" 0)]; disposed := false |};
               onDisposedEmitter :=
                 {| callbacks := [(3, ServiceOnDisposed "go" 1)]; disposed := false |};
               _providers := [4] |} 3 1 _ _ _)); vm_compute; reflexivity.
Defined.

(** X1. A feature created for a language that has no mapped feature,
    once its negotiation has succeeded, is the mapped one; disposing it
    (with room on the stack for the listener's nested call) signals
    Disposed and removes the entry: the language is no longer enabled
    and [superTypes] and [subTypes] resolve to [undefined] for it. *)
Theorem disposal_disables (d d' : nat) (L : string) (capabilities : Obj)
  (documentSelector : JsVal) (w : World) :
  features w !! L = None ->
  truthy documentSelector = true ->
  truthy (get_prop "typeHierarchy" capabilities) = true ->
  let f := (createNewFeature L w).1 in
  let w2 := initialize d f capabilities documentSelector (createNewFeature L w).2 in
  let w3 := (dispose (S (S d')) f w2).1 in
  features w2 !! L = Some f
  /\ features w3 !! L = None
  /\ isEnabledFor (Some L) w3 = false
  /\ (forall sendRequest arg,
        superTypes sendRequest L arg w3 = (w3, Return VUndefined)
        /\ subTypes sendRequest L arg w3 = (w3, Return VUndefined))
  /\ exists t, trace w3 = trace w2 ++ Fired f Disposed :: t.
Proof.
  intros Hnone Hsel Hcap. cbn zeta.
  assert (Hf : (createNewFeature L w).1 = fresh w).
  { rewrite createNewFeature_eq. reflexivity. }
  rewrite Hf.
  destruct (negotiated_state d L capabilities documentSelector w Hnone Hsel Hcap)
    as (Hfeat & (ft & Hft & Hem) & _).
  set (w2 := initialize d (fresh w) capabilities documentSelector (createNewFeature L w).2)
    in *.
  assert (Hmapped : features w2 !! L = Some (fresh w)).
  { rewrite Hfeat. apply lookup_insert_eq. }
  destruct (bystander_evicts d' w2 L (fresh w) (fresh w) ft _ _ Hmapped Hft Hem)
    as [Hgone Htrace].
  split; [exact Hmapped|]. split; [exact Hgone|]. split; [|split].
  - unfold isEnabledFor. rewrite Hgone. rewrite bool_decide_eq_false_2.
    + apply andb_false_r.
    + intros [x Hx]. discriminate.
  - intros sendRequest arg. unfold superTypes, subTypes. rewrite Hgone.
    split; reflexivity.
  - assert (Hopen : is_open (fresh w) Disposed w2 = true).
    { rewrite (is_open_lookup _ _ _ _ Hft). cbn. rewrite Hem. reflexivity. }
    destruct (Htrace Hopen) as (t & Ht & _). eexists. exact Ht.
Qed.

Lemma disposal_disables_witness :
  features
    (dispose 5 (createNewFeature "java" Scenes.go_served).1
       (initialize 8 (createNewFeature "java" Scenes.go_served).1
          Scenes.supporting Scenes.go_selector
          (createNewFeature "java" Scenes.go_served).2)).1 !! "java" = None.
Proof.
  apply (disposal_disables 8 3 "java" Scenes.supporting Scenes.go_selector
           Scenes.go_served); vm_compute; reflexivity.
Defined.

(** X5. Nothing makes a disposed feature final.  When a feature that
    held a registration has been disposed by a disposal that is not
    re-entered, and [initialize] is called on it again with a document
    selector and the capability [true], no Initialized event is
    signalled and the service's map is not touched, yet a registration
    is made under a fresh identifier and kept. *)
Theorem renegotiation_after_dispose_is_silent (d d' : nat) (f : FeatureRef)
  (capabilities : Obj) (documentSelector : JsVal) (w : World) :
  providers_of f w <> [] ->
  not_reentered f w ->
  truthy documentSelector = true ->
  get_prop "typeHierarchy" capabilities = VBool true ->
  let w1 := (dispose (S d) f w).1 in
  let w2 := initialize d' f capabilities documentSelector w1 in
  trace w2 = trace w1 ++ [Registered f (fresh w1) [("documentSelector", documentSelector)]]
  /\ features w2 = features w1
  /\ providers_of f w2 = [fresh w1].
Proof.
  intros Hreg Hquiet Hsel Hcap. cbn zeta.
  destruct (dispose_not_reentered d f w Hreg Hquiet) as (Hview & _).
  unfold view in Hview.
  assert (Hi : is_open f Initialized (dispose (S d) f w).1 = false) by congruence.
  assert (Hnone : providers_of f (dispose (S d) f w).1 = []) by congruence.
  assert (Hex : is_Some (instances (dispose (S d) f w).1 !! f)).
  { apply (ev_exists _ _ (evolves_dispose (S d) f w)).
    unfold providers_of in Hreg. destruct (instances w !! f); [eauto | congruence]. }
  clear Hview. revert Hi Hnone Hex.
  generalize (dispose (S d) f w).1 as w1. intros w1 Hi Hnone Hex.
  unfold initialize. rewrite Hsel, Hcap. cbn [negb truthy].
  rewrite fire_closed by exact Hi.
  unfold assign. cbn [own_props fold_left set_prop fst snd].
  unfold base_register. cbn [get_prop]. rewrite String.eqb_refl. rewrite Hsel.
  destruct Hex as [ft Hft].
  assert (Hps : _providers ft = []).
  { rewrite <- (providers_lookup _ _ _ Hft). exact Hnone. }
  destruct (update_feature_frame f
              (with_providers (fun ps => if decide (fresh w1 ∈ ps) then ps else ps ++ [fresh w1]))
              (bump 1 w1)) as (Hf & Ht & _).
  split; [|split].
  - cbn [trace log]. rewrite Ht. reflexivity.
  - cbn [features log]. rewrite Hf. reflexivity.
  - unfold providers_of. cbn [instances log]. rewrite instances_update_feature.
    rewrite decide_True by reflexivity. cbn [instances bump]. rewrite Hft. cbn.
    rewrite Hps. rewrite decide_False by (apply not_elem_of_nil). reflexivity.
Qed.

Lemma renegotiation_after_dispose_is_silent_witness :
  let w1 := (dispose 8 0 MoreScenes.watched_registered).1 in
  providers_of 0 (initialize 8 0 Scenes.supporting Scenes.go_selector w1) = [fresh w1].
Proof.
  cbn zeta.
  apply (renegotiation_after_dispose_is_silent 7 8 0 Scenes.supporting Scenes.go_selector
           MoreScenes.watched_registered).
  - vm_compute. discriminate.
  - unfold not_reentered.
    replace (instances MoreScenes.watched_registered !! 0)
      with (Some {| languageId := "go";
                    onInitializedEmitter :=
                      {| callbacks := [(1, Observer 1)]; disposed := false |};
                    onDisposedEmitter :=
                      {| callbacks := [(2, Observer 2)]; disposed := false |};
                    _providers := [3] |})
      by (vm_compute; reflexivity).
    repeat constructor.
  - reflexivity.
  - reflexivity.
Defined.

Lemma remove_only_callback (s : nat) (cb : Callback) (b : bool) :
  remove_callback s {| callbacks := [(s, cb)]; disposed := b |}
  = {| callbacks := []; disposed := b |}.
Proof.
  unfold remove_callback. cbn [callbacks disposed].
  rewrite filter_cons. cbn [fst]. rewrite decide_False by (intros H; apply H; reflexivity).
  reflexivity.
Qed.

(** The store after a new feature of a language with no mapped feature
    has been disposed without ever being initialized. *)
Lemma disposed_unborn_state (d : nat) (L : string) (w : World) :
  features w !! L = None ->
  let f := fresh w in
  let w2 := (dispose (S d) f (createNewFeature L w).2).1 in
  features w2 = features w
  /\ trace w2 = trace w ++ [Fired f Disposed]
  /\ instances w2 !! f
     = Some {| languageId := L;
               onInitializedEmitter := {| callbacks := []; disposed := false |};
               onDisposedEmitter := {| callbacks := []; disposed := false |};
               _providers := [] |}.
Proof.
  intros Hnone. cbn zeta.
  assert (HW : (dispose (S d) (fresh w) (createNewFeature L w).2).1
               = {| features := features w;
                    instances :=
                      <[fresh w :=
                          {| languageId := L;
                             onInitializedEmitter := {| callbacks := []; disposed := false |};
                             onDisposedEmitter := {| callbacks := []; disposed := false |};
                             _providers := [] |}]> (instances w);
                    collections := <[fresh w + 1 := []]> (collections w);
                    heap := heap w;
                    trace := trace w ++ [Fired (fresh w) Disposed];
                    fresh := fresh w + 1 + 3 |}).
  { rewrite createNewFeature_eq. cbn [snd].
    rewrite dispose_S. cbn [fst].
    unfold fire. cbn [instances]. rewrite lookup_insert_eq.
    cbn [emitter_of onDisposedEmitter disposed callbacks].
    unfold deliver. cbn [foldl snd invoke]. unfold on_disposed.
    cbn [features log]. rewrite Hnone. cbn [fst].
    unfold dispose_collection. cbn [collections log]. rewrite lookup_insert_eq.
    cbn [rev app foldl dispose_disposable].
    unfold update_feature at 2. cbn [instances log]. rewrite lookup_insert_eq.
    cbn [with_emitter languageId onInitializedEmitter onDisposedEmitter _providers].
    rewrite remove_only_callback.
    unfold update_feature at 1. cbn [instances set_instances]. rewrite lookup_insert_eq.
    cbn [with_emitter languageId onInitializedEmitter onDisposedEmitter _providers].
    rewrite remove_only_callback.
    rewrite base_dispose_nothing_kept.
    - unfold set_collections, set_instances, log. cbn. rewrite ?insert_insert_eq.
      reflexivity.
    - unfold providers_of. cbn. rewrite lookup_insert_eq. reflexivity. }
  rewrite HW. cbn. rewrite lookup_insert_eq. repeat split; reflexivity.
Qed.

(** X3. A feature that is disposed before its negotiation is given up
    by the service for good: the service's listeners are unsubscribed
    by the disposal, so when [initialize] is called on the feature
    afterwards, Initialized is signalled (the stream was never closed)
    but the service does not install the feature; its map is as it was
    before the feature was created. *)
Theorem disposed_before_negotiation_is_not_installed (d d' : nat) (L : string)
  (capabilities : Obj) (documentSelector : JsVal) (w : World) :
  features w !! L = None ->
  truthy documentSelector = true ->
  truthy (get_prop "typeHierarchy" capabilities) = true ->
  let f := (createNewFeature L w).1 in
  let w2 := (dispose (S d) f (createNewFeature L w).2).1 in
  let w3 := initialize d' f capabilities documentSelector w2 in
  features w3 = features w
  /\ isEnabledFor (Some L) w3 = false
  /\ exists t, trace w3 = trace w ++ [Fired f Disposed; Fired f Initialized] ++ t
               /\ forall x, ~ In (MapSet L x) t.
Proof.
  intros Hnone Hsel Hcap. cbn zeta.
  assert (Hf : (createNewFeature L w).1 = fresh w).
  { rewrite createNewFeature_eq. reflexivity. }
  rewrite Hf.
  destruct (disposed_unborn_state d L w Hnone) as (Hfeat & Htrace & Hinst).
  revert Hfeat Htrace Hinst.
  generalize (dispose (S d) (fresh w) (createNewFeature L w).2).1 as w2.
  intros w2 Hfeat Htrace Hinst.
  assert (Hfire : fire (dispose d') (fresh w) Initialized w2
                  = log (Fired (fresh w) Initialized) w2).
  { rewrite (fire_lookup _ _ _ _ _ Hinst). reflexivity. }
  assert (Hshape : features (initialize d' (fresh w) capabilities documentSelector w2)
                   = features w
                   /\ exists t,
                        trace (initialize d' (fresh w) capabilities documentSelector w2)
                        = trace w ++ [Fired (fresh w) Disposed; Fired (fresh w) Initialized]
                          ++ t
                        /\ forall x, ~ In (MapSet L x) t).
  { unfold initialize. rewrite Hsel, Hcap. cbn [negb]. rewrite Hfire.
    unfold base_register. destruct (truthy (get_prop "documentSelector" _)).
    - match goal with
      | |- features (log _ (update_feature ?g ?h ?x)) = _ /\ _ =>
          destruct (update_feature_frame g h x) as (Hf1 & Ht1 & _)
      end.
      split.
      + cbn [features log]. rewrite Hf1. exact Hfeat.
      + eexists [_]. split.
        * cbn [trace log]. rewrite Ht1. cbn [trace log bump]. rewrite Htrace.
          rewrite <- !app_assoc. reflexivity.
        * intros x [Hx|[]]. discriminate.
    - split; [exact Hfeat|]. exists []. split.
      + cbn. rewrite Htrace, <- !app_assoc. reflexivity.
      + intros x [].
  }
  destruct Hshape as (Hfeat3 & Ht3). split; [exact Hfeat3|]. split; [|exact Ht3].
  unfold isEnabledFor. rewrite Hfeat3, Hnone. rewrite bool_decide_eq_false_2.
  - apply andb_false_r.
  - intros [x Hx]. discriminate.
Qed.

Lemma disposed_before_negotiation_is_not_installed_witness :
  isEnabledFor (Some "java")
    (initialize 8 (createNewFeature "java" Scenes.go_served).1
       Scenes.supporting Scenes.go_selector
       (dispose 8 (createNewFeature "java" Scenes.go_served).1
          (createNewFeature "java" Scenes.go_served).2).1) = false.
Proof.
  apply (disposed_before_negotiation_is_not_installed 7 8 "java" Scenes.supporting
           Scenes.go_selector Scenes.go_served); vm_compute; reflexivity.
Defined.

(** ** Disposing the service *)

Lemma forEach_dispose_returns (d : nat) (order : list string) (w : World) :
  (Service.forEach_dispose (S d) order w).2 = Return tt.
Proof.
  revert w. induction order as [|l order IH]; intros w; cbn [Service.forEach_dispose].
  - reflexivity.
  - destruct (features w !! l) as [feature|]; [|apply IH].
    rewrite dispose_S. apply IH.
Qed.

Lemma forEach_dispose_evolves (d : nat) (order : list string) (w : World) :
  evolves w (Service.forEach_dispose (S d) order w).1.
Proof.
  revert w. induction order as [|l order IH]; intros w; cbn [Service.forEach_dispose].
  - apply evolves_refl.
  - destruct (features w !! l) as [feature|]; [|apply IH].
    pose proof (evolves_dispose (S d) feature w) as Hd.
    rewrite dispose_S in *. cbn [fst] in Hd.
    eapply evolves_trans; [exact Hd | apply IH].
Qed.

Lemma forEach_dispose_signals (L : string) (A : FeatureRef) (t0 : list Event)
  (d : nat) (order : list string) (w : World) :
  orderly L A t0 w ->
  In L order ->
  signalled L A t0 (Service.forEach_dispose (S d) order w).1.
Proof.
  revert w. induction order as [|l order IH]; intros w Hord Hin; [contradiction|].
  cbn [Service.forEach_dispose].
  destruct (decide (l = L)) as [->|Hne].
  - destruct (features w !! L) as [feature|] eqn:Hl.
    + assert (Hs : signalled L A t0 (dispose (S d) feature w).1).
      { destruct Hord as [Hs|Hp].
        - eapply signalled_evolves; [exact Hs | apply evolves_dispose].
        - assert (feature = A) by (destruct Hp as (_ & Hm & _); congruence). subst feature.
          apply dispose_mapped_signals. right. exact Hp. }
      rewrite dispose_S in *. cbn [fst] in Hs.
      eapply signalled_evolves; [exact Hs | apply forEach_dispose_evolves].
    + destruct Hord as [Hs|Hp].
      * eapply signalled_evolves; [exact Hs | apply forEach_dispose_evolves].
      * destruct Hp as (_ & Hm & _). congruence.
  - destruct Hin as [Heq|Hin]; [congruence|].
    destruct (features w !! l) as [feature|]; [|apply IH; assumption].
    pose proof (orderly_dispose L A t0 (S d) feature w Hord) as Ho.
    rewrite dispose_S in *. cbn [fst] in Ho. apply IH; assumption.
Qed.

(** X6. [dispose()] of the service, with room on the stack: it returns
    normally; afterwards the map is empty, no language is enabled, and
    [superTypes] and [subTypes] resolve to [undefined] for every
    language; and every feature that was mapped with an open Disposed
    stream has signalled Disposed during the call, in whatever order
    the entries are walked. *)
Theorem service_dispose_disposes_all (d : nat) (order : list string) (w : World) :
  let r := Service.dispose (S d) order w in
  r.2 = Return tt
  /\ features r.1 = ∅
  /\ (forall l, isEnabledFor l r.1 = false)
  /\ (forall sendRequest L arg,
        superTypes sendRequest L arg r.1 = (r.1, Return VUndefined)
        /\ subTypes sendRequest L arg r.1 = (r.1, Return VUndefined))
  /\ (forall L g,
        features w !! L = Some g -> is_open g Disposed w = true -> In L order ->
        exists t, trace r.1 = trace w ++ t /\ In (Fired g Disposed) t).
Proof.
  cbn zeta. unfold Service.dispose.
  pose proof (forEach_dispose_returns d order w) as Hret.
  destruct (Service.forEach_dispose (S d) order w) as [w1 [[]|e]] eqn:Hloop;
    cbn [snd] in Hret; [|discriminate].
  cbn [fst snd]. split; [reflexivity|]. split; [reflexivity|]. split; [|split].
  - intros [l|]; [|reflexivity]. unfold isEnabledFor. cbn [features set_features].
    rewrite lookup_empty. rewrite bool_decide_eq_false_2.
    + apply andb_false_r.
    + intros [x Hx]. discriminate.
  - intros sendRequest L arg. unfold superTypes, subTypes. cbn [features set_features].
    rewrite lookup_empty. split; reflexivity.
  - intros L g Hmapped Hopen Hin.
    assert (Hpend : orderly L g (trace w) w).
    { right. split; [|split; assumption]. exists []. split; [now rewrite app_nil_r|].
      intros i x Hi. rewrite lookup_nil in Hi. discriminate. }
    pose proof (forEach_dispose_signals L g (trace w) d order w Hpend Hin) as Hs.
    rewrite Hloop in Hs. cbn [fst] in Hs.
    destruct Hs as (t & Ht & _ & Hfired). exists t. split; [exact Ht | exact Hfired].
Qed.

Lemma service_dispose_disposes_all_witness :
  exists t, trace (Service.dispose 8 ["go"] Scenes.go_served).1
            = trace Scenes.go_served ++ t
            /\ In (Fired 0 Disposed) t.
Proof.
  pose proof (service_dispose_disposes_all 7 ["go"] Scenes.go_served) as H.
  cbn zeta in H. destruct H as (_ & _ & _ & _ & H). apply (H "go" 0).
  - vm_compute. reflexivity.
  - vm_compute. reflexivity.
  - left. reflexivity.
Defined.

(** ** A new feature takes over *)

(** X13. Feature [A] is mapped for a language, with its Disposed
    stream open, when a new feature [B] is created for the same
    language and completes its negotiation (with room on the stack).
    Then [B] signals Initialized, the next event is the Disposed signal
    of [A], after that [B] is installed, and at the end [B] is the
    mapped feature. *)
Theorem takeover_completes (d : nat) (L : string) (A : FeatureRef)
  (capabilities : Obj) (documentSelector : JsVal) (w : World) :
  features w !! L = Some A ->
  A <> (createNewFeature L w).1 ->
  is_open A Disposed w = true ->
  truthy documentSelector = true ->
  truthy (get_prop "typeHierarchy" capabilities) = true ->
  let B := (createNewFeature L w).1 in
  let w' := initialize (S d) B capabilities documentSelector (createNewFeature L w).2 in
  features w' !! L = Some B
  /\ exists t1 t2,
       trace w' = trace w ++ [Fired B Initialized; Fired A Disposed]
                  ++ t1 ++ MapSet L B :: t2.
Proof.
  intros Hmapped Hne Hopen Hsel Hcap. cbn zeta.
  rewrite createNewFeature_eq in *. cbn [fst snd] in *.
  set (W := {| features := features w; instances := _; collections := _; heap := heap w;
               trace := trace w; fresh := fresh w + 1 + 3 |}).
  set (W0 := log (Fired (fresh w) Initialized) W).
  assert (HopenW : is_open A Disposed W0 = true).
  { unfold is_open in *. cbn. rewrite lookup_insert_ne by congruence. exact Hopen. }
  destruct (dispose_signals_first d A W0 HopenW) as (t1 & Ht1).
  set (w1 := (dispose (S d) A W0).1) in *.
  assert (Hfire : fire (dispose (S d)) (fresh w) Initialized W
                  = log (MapSet L (fresh w))
                      (set_features (<[L := fresh w]> (features w1)) w1)).
  { unfold fire. subst W. cbn [instances]. rewrite lookup_insert_eq.
    cbn [emitter_of onInitializedEmitter disposed callbacks].
    unfold deliver. cbn [foldl snd invoke]. unfold on_initialized.
    cbn [features log]. rewrite Hmapped. fold W0.
    subst w1. rewrite dispose_S. reflexivity. }
  unfold initialize. rewrite Hsel, Hcap. cbn [negb]. rewrite Hfire.
  set (w2 := log (MapSet L (fresh w)) (set_features (<[L := fresh w]> (features w1)) w1)).
  assert (Hfeat2 : features w2 !! L = Some (fresh w)).
  { subst w2. cbn. apply lookup_insert_eq. }
  assert (Htrace2 : trace w2
                    = trace w ++ [Fired (fresh w) Initialized; Fired A Disposed]
                      ++ t1 ++ [MapSet L (fresh w)]).
  { subst w2. cbn [trace log set_features]. rewrite Ht1. subst W0 W. cbn.
    rewrite <- !app_assoc. reflexivity. }
  unfold base_register. destruct (truthy (get_prop "documentSelector" _)).
  - match goal with
    | |- features (log _ (update_feature ?g ?h ?x)) !! _ = _ /\ _ =>
        destruct (update_feature_frame g h x) as (Hf & Ht & _)
    end.
    split.
    + cbn [features log]. rewrite Hf. exact Hfeat2.
    + eexists t1, [_]. cbn [trace log]. rewrite Ht. cbn [trace bump].
      rewrite Htrace2. rewrite <- !app_assoc. reflexivity.
  - split; [exact Hfeat2|]. exists t1, []. cbn [trace bump]. exact Htrace2.
Qed.

Lemma takeover_completes_witness :
  features
    (initialize 8 (createNewFeature "go" Scenes.go_served).1
       Scenes.supporting Scenes.go_selector
       (createNewFeature "go" Scenes.go_served).2) !! "go"
  = Some (createNewFeature "go" Scenes.go_served).1.
Proof.
  apply (takeover_completes 7 "go" 0 Scenes.supporting Scenes.go_selector
           Scenes.go_served); vm_compute; try reflexivity; discriminate.
Defined.

(** ** What a query leaves alone *)

(** X14. Whatever the argument and however the call ends, [superTypes]
    and [subTypes] leave the service's map, the features and the
    subscriptions as they were; in the store of objects they write at
    most to the argument object and to one newly made object. *)
Theorem queries_touch_only_their_argument sendRequest (w : World)
  (languageId : string) (arg : nat) :
  forall query,
    query = superTypes sendRequest \/ query = subTypes sendRequest ->
    let w' := (query languageId arg w).1 in
    features w' = features w
    /\ instances w' = instances w
    /\ collections w' = collections w
    /\ (forall r, r <> arg -> r <> fresh w -> heap w' !! r = heap w !! r).
Proof.
  assert (Htypes : forall direction,
            let w' := (types sendRequest (features w !! languageId) arg direction w).1 in
            features w' = features w
            /\ instances w' = instances w
            /\ collections w' = collections w
            /\ (forall r, r <> arg -> r <> fresh w -> heap w' !! r = heap w !! r)).
  { intros direction. cbn zeta. unfold types.
    destruct (features w !! languageId) as [f|]; [|repeat split; reflexivity].
    unfold toTextDocumentPositionParams.
    destruct (heap w !! arg) as [o|] eqn:Harg; [|repeat split; reflexivity].
    destruct (isTextDocumentPositionParams o).
    - unfold write, get. rewrite Harg. cbn [heap set_heap].
      rewrite lookup_insert_eq. cbn [heap set_heap]. rewrite lookup_insert_eq.
      destruct (sendRequest f _ _); cbn; repeat split; try reflexivity;
        intros r Hr _; rewrite !lookup_insert_ne by congruence; reflexivity.
    - destruct (member (get_prop "range" o) "start") as [position|e];
        [|repeat split; reflexivity].
      unfold alloc, write, get. cbn [fst snd heap set_heap bump].
      rewrite lookup_insert_eq. cbn [heap set_heap].
      rewrite lookup_insert_eq. cbn [heap set_heap].
      rewrite lookup_insert_eq.
      destruct (sendRequest f _ _); cbn; repeat split; try reflexivity;
        intros r _ Hr; rewrite !lookup_insert_ne by congruence; reflexivity. }
  intros query [-> | ->]; [apply (Htypes "parents") | apply (Htypes "children")].
Qed.

Lemma queries_touch_only_their_argument_witness :
  heap (superTypes Scenes.silent_client "go" 12 Scenes.go_served).1 !! 10
  = heap Scenes.go_served !! 10.
Proof.
  apply (queries_touch_only_their_argument Scenes.silent_client Scenes.go_served "go" 12
           (superTypes Scenes.silent_client)).
  - left. reflexivity.
  - discriminate.
  - vm_compute. discriminate.
Defined.

(** ** The empty language id *)

(** X15. [isEnabledFor] answers [false] for the empty language id and
    for a missing one, whatever the map holds; yet a feature mapped
    under the empty id is the one [superTypes] and [subTypes] send
    their request to. *)
Theorem empty_language_is_served_but_not_enabled sendRequest (w : World)
  (f : FeatureRef) (arg : nat) (o : Obj) :
  isEnabledFor (Some "") w = false
  /\ isEnabledFor None w = false
  /\ (features w !! "" = Some f ->
      heap w !! arg = Some o ->
      isTextDocumentPositionParams o = true ->
      trace (superTypes sendRequest "" arg w).1
      = trace w ++ [Request f TypeHierarchyRequest_type (overwritten o "parents")]
      /\ trace (subTypes sendRequest "" arg w).1
         = trace w ++ [Request f TypeHierarchyRequest_type (overwritten o "children")]).
Proof.
  split; [reflexivity|]. split; [reflexivity|].
  intros Hf Harg Hshape. unfold superTypes, subTypes. rewrite Hf.
  destruct (types_passes sendRequest w f arg o "parents" Harg Hshape) as (Hp & _).
  destruct (types_passes sendRequest w f arg o "children" Harg Hshape) as (Hc & _).
  split; assumption.
Qed.

Lemma empty_language_is_served_but_not_enabled_witness :
  trace (superTypes Scenes.silent_client "" 10 MoreScenes.unnamed_served).1
  = trace MoreScenes.unnamed_served
    ++ [Request 0 TypeHierarchyRequest_type (overwritten Scenes.both_params "parents")].
Proof.
  destruct (empty_language_is_served_but_not_enabled Scenes.silent_client
              MoreScenes.unnamed_served 0 10 Scenes.both_params) as (_ & _ & H).
  destruct H as [H _]; [vm_compute; reflexivity ..|]. exact H.
Defined.

(** ** Negotiating twice *)

Lemma on_initialized_mapped (rec : FeatureRef -> World -> World * Completion unit)
  (L : string) (newFeature old : FeatureRef) (w : World) :
  features w !! L = Some old ->
  on_initialized rec L newFeature w
  = match rec old w with
    | (w1, Return _) =>
        (log (MapSet L newFeature) (set_features (<[L := newFeature]> (features w1)) w1),
         Return tt)
    | (w1, Throw e) => (w1, Throw e)
    end.
Proof. intros H. unfold on_initialized. now rewrite H. Qed.

(** The two streams of a new feature after its first negotiation. *)
Lemma negotiated_emitters (d : nat) (L : string) (capabilities : Obj)
  (documentSelector : JsVal) (w : World) :
  features w !! L = None ->
  truthy documentSelector = true ->
  truthy (get_prop "typeHierarchy" capabilities) = true ->
  exists ft,
    instances (initialize d (fresh w) capabilities documentSelector (createNewFeature L w).2)
      !! fresh w = Some ft
    /\ onInitializedEmitter ft
       = {| callbacks := [(fresh w + 1 + 1, ServiceOnInitialized L (fresh w))];
            disposed := false |}
    /\ onDisposedEmitter ft
       = {| callbacks := [(fresh w + 1 + 2, ServiceOnDisposed L (fresh w + 1))];
            disposed := false |}.
Proof.
  intros Hnone Hsel Hcap. rewrite createNewFeature_eq. cbn [snd].
  unfold initialize. rewrite Hsel, Hcap. cbn [negb].
  unfold fire. cbn [instances]. rewrite lookup_insert_eq.
  cbn [emitter_of onInitializedEmitter disposed callbacks].
  unfold deliver. cbn [foldl snd invoke]. unfold on_initialized.
  cbn [features log]. rewrite Hnone. cbn [fst].
  unfold base_register.
  destruct (truthy (get_prop "documentSelector" _)).
  - cbn [instances log]. rewrite instances_update_feature.
    cbn [instances bump set_features log]. rewrite lookup_insert_eq.
    rewrite decide_True by reflexivity. cbn.
    eexists. repeat split; reflexivity.
  - cbn. rewrite lookup_insert_eq. eexists. repeat split; reflexivity.
Qed.

(** X16. A feature that completes a second negotiation while it is the
    mapped one is itself the old feature that the service's listener
    finds: it signals Initialized, is disposed (its Disposed signal is
    the next event) and is then mapped again.  The language stays
    enabled by a feature that has been disposed. *)
Theorem second_negotiation_disposes_and_remaps (d d2 : nat) (L : string)
  (capabilities : Obj) (documentSelector : JsVal) (w : World) :
  features w !! L = None ->
  truthy documentSelector = true ->
  truthy (get_prop "typeHierarchy" capabilities) = true ->
  let f := (createNewFeature L w).1 in
  let w2 := initialize d f capabilities documentSelector (createNewFeature L w).2 in
  let w3 := initialize (S d2) f capabilities documentSelector w2 in
  features w3 !! L = Some f
  /\ isEnabledFor (Some L) w3 = negb (String.eqb L "")
  /\ exists t1 t2,
       trace w3 = trace w2 ++ [Fired f Initialized; Fired f Disposed]
                  ++ t1 ++ MapSet L f :: t2.
Proof.
  intros Hnone Hsel Hcap. cbn zeta.
  assert (Hf : (createNewFeature L w).1 = fresh w).
  { rewrite createNewFeature_eq. reflexivity. }
  rewrite Hf.
  destruct (negotiated_emitters d L capabilities documentSelector w Hnone Hsel Hcap)
    as (ft & Hinst & Hei & Hed).
  destruct (negotiated_state d L capabilities documentSelector w Hnone Hsel Hcap)
    as (Hfeat & _).
  revert Hinst Hfeat.
  generalize (initialize d (fresh w) capabilities documentSelector (createNewFeature L w).2)
    as w2.
  intros w2 Hinst Hfeat.
  assert (Hmapped : features w2 !! L = Some (fresh w)).
  { rewrite Hfeat. apply lookup_insert_eq. }
  set (W0 := log (Fired (fresh w) Initialized) w2).
  assert (Hopen : is_open (fresh w) Disposed W0 = true).
  { change (is_open (fresh w) Disposed W0) with (is_open (fresh w) Disposed w2).
    rewrite (is_open_lookup _ _ _ _ Hinst). cbn. rewrite Hed. reflexivity. }
  destruct (dispose_signals_first d2 (fresh w) W0 Hopen) as (t1 & Ht1).
  set (w1 := (dispose (S d2) (fresh w) W0).1) in *.
  assert (Hfire : fire (dispose (S d2)) (fresh w) Initialized w2
                  = log (MapSet L (fresh w))
                      (set_features (<[L := fresh w]> (features w1)) w1)).
  { rewrite (fire_lookup _ _ _ _ _ Hinst).
    cbn [emitter_of]. rewrite Hei. cbn [disposed callbacks].
    unfold deliver. cbn [foldl snd invoke]. fold W0.
    rewrite (on_initialized_mapped _ L (fresh w) (fresh w) W0 Hmapped).
    subst w1. rewrite dispose_S. reflexivity. }
  assert (Hw3 : features (initialize (S d2) (fresh w) capabilities documentSelector w2) !! L
                = Some (fresh w)
                /\ exists t2,
                     trace (initialize (S d2) (fresh w) capabilities documentSelector w2)
                     = trace w2 ++ [Fired (fresh w) Initialized; Fired (fresh w) Disposed]
                       ++ t1 ++ MapSet L (fresh w) :: t2).
  { unfold initialize. rewrite Hsel, Hcap. cbn [negb]. rewrite Hfire.
    set (w2' := log (MapSet L (fresh w))
                  (set_features (<[L := fresh w]> (features w1)) w1)).
    assert (Hfeat2 : features w2' !! L = Some (fresh w)).
    { subst w2'. cbn. apply lookup_insert_eq. }
    assert (Htrace2 : trace w2'
                      = trace w2 ++ [Fired (fresh w) Initialized; Fired (fresh w) Disposed]
                        ++ t1 ++ [MapSet L (fresh w)]).
    { subst w2'. cbn [trace log set_features]. rewrite Ht1. subst W0. cbn.
      rewrite <- !app_assoc. reflexivity. }
    unfold base_register. destruct (truthy (get_prop "documentSelector" _)).
    - match goal with
      | |- features (log _ (update_feature ?g ?h ?x)) !! _ = _ /\ _ =>
          destruct (update_feature_frame g h x) as (Hf1 & Ht2 & _)
      end.
      split.
      + cbn [features log]. rewrite Hf1. exact Hfeat2.
      + eexists [_]. cbn [trace log]. rewrite Ht2. cbn [trace bump].
        rewrite Htrace2. rewrite <- !app_assoc. reflexivity.
    - split; [exact Hfeat2|]. exists []. cbn [trace bump]. exact Htrace2. }
  destruct Hw3 as (Hm3 & t2 & Ht3).
  split; [exact Hm3|]. split; [|exists t1, t2; exact Ht3].
  unfold isEnabledFor.
  revert Hm3. generalize (initialize (S d2) (fresh w) capabilities documentSelector w2) as w3.
  intros w3 Hm3. rewrite bool_decide_eq_true_2; [apply andb_true_r|].
  exists (fresh w). exact Hm3.
Qed.

Lemma second_negotiation_disposes_and_remaps_witness :
  let f := (createNewFeature "java" Scenes.go_served).1 in
  let w2 := initialize 8 f Scenes.supporting Scenes.go_selector
              (createNewFeature "java" Scenes.go_served).2 in
  features (initialize 8 f Scenes.supporting Scenes.go_selector w2) !! "java" = Some f.
Proof.
  cbn zeta.
  apply (second_negotiation_disposes_and_remaps 8 7 "java" Scenes.supporting
           Scenes.go_selector Scenes.go_served); vm_compute; reflexivity.
Defined.
